(** * Tic-tac-toe client, match flow, move engine and statistics schema

    A shallow embedding of
    - [frontend/js/game_with_auth.js]: the module-level [GAME_STATE], the
      board checks [checkWinner] / [checkGameEnd], the click handler and the
      round and match flow with its deferred callbacks;
    - [database/schemas_with_auth.sql]: [calculate_win_rate] and the
      [user_statistics] view;
    - the move engine behind [POST /ai/move], which the client only calls. *)

From Stdlib Require Import String Ascii ZArith QArith Arith Bool Lia List.
From Stdlib Require Import Permutation Sorted.
Import ListNotations.

Close Scope Q_scope.
Open Scope nat_scope.

(* ================================================================== *)
(** ** JavaScript values held by the board *)
(* ================================================================== *)

Module Js.

(** The two marks, the strings ['X'] and ['O']. *)
Inductive Mark := X | O.

(** ['X' === 'O'] and the like. *)
Definition mark_eqb (a b : Mark) : bool :=
  match a, b with
  | X, X | O, O => true
  | _, _ => false
  end.

(** [player === 'X' ? 'O' : 'X'] *)
Definition other (p : Mark) : Mark :=
  match p with X => O | O => X end.

(** What a read [board[i]] can yield: [undefined] (index past the end, or a
    hole left by a write past the end), [null] (empty cell) or a mark. *)
Inductive Val := Undefined | Null | Str (m : Mark).

(** JavaScript truthiness: [undefined] and [null] are falsy, the non-empty
    strings ['X'] and ['O'] are truthy. *)
Definition truthy (v : Val) : bool :=
  match v with Str _ => true | _ => false end.

(** Strict equality [===]. *)
Definition strict_eq (a b : Val) : bool :=
  match a, b with
  | Undefined, Undefined | Null, Null => true
  | Str m, Str n => mark_eqb m n
  | _, _ => false
  end.

(** An array of cells.  A hole is represented by [Undefined]: the code only
    reads cells through indexing, [every] and [JSON.stringify], none of which
    tells a hole from [undefined] in the tests it makes. *)
Definition Array := list Val.

(** [arr[i]] *)
Definition get (arr : Array) (i : nat) : Val := nth i arr Undefined.

(** [arr[i] = v]: replaces inside the array, extends it with holes past the
    end. *)
Fixpoint set (arr : Array) (i : nat) (v : Val) : Array :=
  match i, arr with
  | 0, [] => [v]
  | 0, _ :: rest => v :: rest
  | S j, [] => Undefined :: set [] j v
  | S j, c :: rest => c :: set rest j v
  end.

(** [Array(n).fill(null)] *)
Definition filled_null (n : nat) : Array := repeat Null n.

(** [arr.every(cell => cell !== null)] *)
Definition every_not_null (arr : Array) : bool :=
  forallb (fun cell => negb (strict_eq cell Null)) arr.

End Js.

Import Js.

(* ================================================================== *)
(** ** Board checks of the client *)
(* ================================================================== *)

Module Game.

(** A win pattern [[a, b, c]]. *)
Definition Pattern := (nat * nat * nat)%type.

(** The constant [winPatterns] of [checkWinner]. *)
Definition winPatterns : list Pattern :=
  [ (0, 1, 2); (3, 4, 5); (6, 7, 8);   (* rows *)
    (0, 3, 6); (1, 4, 7); (2, 5, 8);   (* columns *)
    (0, 4, 8); (2, 4, 6) ]%nat.        (* diagonals *)

(** The value [{ player: GAME_STATE.board[a], line: pattern }] returned by
    [checkWinner]. *)
Record Winner := mkWinner { player : Val; line : Pattern }.

(** The loop [for (const pattern of winPatterns)] of [checkWinner], over the
    patterns still to be tried. *)
Fixpoint checkWinner_loop (board : Array) (patterns : list Pattern)
  : option Winner :=
  match patterns with
  | [] => None
  | (a, b, c) :: rest =>
      if truthy (get board a)
         && strict_eq (get board a) (get board b)
         && strict_eq (get board a) (get board c)
      then Some (mkWinner (get board a) (a, b, c))
      else checkWinner_loop board rest
  end.

Definition checkWinner (board : Array) : option Winner :=
  checkWinner_loop board winPatterns.

(** The value returned by [checkGameEnd]: [{ type: 'win', winner }] or
    [{ type: 'draw' }]; [null] is [None].  The highlighting of the winning
    cells only touches the page. *)
Inductive EndResult := Win (winner : Val) | Draw.

Definition checkGameEnd (board : Array) : option EndResult :=
  match checkWinner board with
  | Some w => Some (Win (player w))
  | None => if every_not_null board then Some Draw else None
  end.

(** The three cells of pattern [p] all hold mark [m]. *)
Definition holds (board : Array) (p : Pattern) (m : Mark) : Prop :=
  let '(a, b, c) := p in
  get board a = Str m /\ get board b = Str m /\ get board c = Str m.

(** Some line of the fixed table holds three identical marks. *)
Definition has_line (board : Array) : Prop :=
  exists m p, In p winPatterns /\ holds board p m.

End Game.

(* ================================================================== *)
(** ** Module state and the round and match flow of the client *)
(* ================================================================== *)

Module Flow.
Import Game.

(** The values of [data-mode] on the mode cards. *)
Inductive Mode := human_vs_ai | human_vs_human | ai_vs_ai.

(** The values of [data-difficulty] on the difficulty cards. *)
Inductive Difficulty := easy | medium | hard.

(** [GAME_STATE.currentMode === x] *)
Definition mode_is (m : option Mode) (x : Mode) : bool :=
  match m, x with
  | Some human_vs_ai, human_vs_ai
  | Some human_vs_human, human_vs_human
  | Some ai_vs_ai, ai_vs_ai => true
  | _, _ => false
  end.

(** The object [GAME_STATE]; [null] fields are [None]. *)
Record GAME_STATE := mkState {
  currentUser : option nat;
  currentMode : option Mode;
  currentDifficulty : option Difficulty;
  matchId : option nat;
  currentRound : Z;
  player1Score : Z;
  player2Score : Z;
  board : Array;
  currentPlayer : Mark;
  gameActive : bool;
  isAITurn : bool
}.

(** The initial value of [GAME_STATE]. *)
Definition initial_state : GAME_STATE :=
  {| currentUser := None; currentMode := None; currentDifficulty := None;
     matchId := None; currentRound := 1; player1Score := 0;
     player2Score := 0; board := filled_null 9; currentPlayer := X;
     gameActive := false; isAITurn := false |}.

(** Assignments to the fields of [GAME_STATE]. *)
Definition set_currentUser v (g : GAME_STATE) :=
  mkState v (currentMode g) (currentDifficulty g) (matchId g)
    (currentRound g) (player1Score g) (player2Score g) (board g)
    (currentPlayer g) (gameActive g) (isAITurn g).
Definition set_currentMode v (g : GAME_STATE) :=
  mkState (currentUser g) v (currentDifficulty g) (matchId g)
    (currentRound g) (player1Score g) (player2Score g) (board g)
    (currentPlayer g) (gameActive g) (isAITurn g).
Definition set_currentDifficulty v (g : GAME_STATE) :=
  mkState (currentUser g) (currentMode g) v (matchId g)
    (currentRound g) (player1Score g) (player2Score g) (board g)
    (currentPlayer g) (gameActive g) (isAITurn g).
Definition set_matchId v (g : GAME_STATE) :=
  mkState (currentUser g) (currentMode g) (currentDifficulty g) v
    (currentRound g) (player1Score g) (player2Score g) (board g)
    (currentPlayer g) (gameActive g) (isAITurn g).
Definition set_currentRound v (g : GAME_STATE) :=
  mkState (currentUser g) (currentMode g) (currentDifficulty g) (matchId g)
    v (player1Score g) (player2Score g) (board g)
    (currentPlayer g) (gameActive g) (isAITurn g).
Definition set_player1Score v (g : GAME_STATE) :=
  mkState (currentUser g) (currentMode g) (currentDifficulty g) (matchId g)
    (currentRound g) v (player2Score g) (board g)
    (currentPlayer g) (gameActive g) (isAITurn g).
Definition set_player2Score v (g : GAME_STATE) :=
  mkState (currentUser g) (currentMode g) (currentDifficulty g) (matchId g)
    (currentRound g) (player1Score g) v (board g)
    (currentPlayer g) (gameActive g) (isAITurn g).
Definition set_board v (g : GAME_STATE) :=
  mkState (currentUser g) (currentMode g) (currentDifficulty g) (matchId g)
    (currentRound g) (player1Score g) (player2Score g) v
    (currentPlayer g) (gameActive g) (isAITurn g).
Definition set_currentPlayer v (g : GAME_STATE) :=
  mkState (currentUser g) (currentMode g) (currentDifficulty g) (matchId g)
    (currentRound g) (player1Score g) (player2Score g) (board g)
    v (gameActive g) (isAITurn g).
Definition set_gameActive v (g : GAME_STATE) :=
  mkState (currentUser g) (currentMode g) (currentDifficulty g) (matchId g)
    (currentRound g) (player1Score g) (player2Score g) (board g)
    (currentPlayer g) v (isAITurn g).
Definition set_isAITurn v (g : GAME_STATE) :=
  mkState (currentUser g) (currentMode g) (currentDifficulty g) (matchId g)
    (currentRound g) (player1Score g) (player2Score g) (board g)
    (currentPlayer g) (gameActive g) v.

(** What runs after an [await makeMove(...)]: nothing in the handlers, the
    tail [if (GAME_STATE.gameActive) setTimeout(() => playAIvsAI(), 1500)]
    in [playAIvsAI]. *)
Inductive Cont := Stop | ResumePlayAIvsAI.

(** A callback the event loop still has to run: a timer set with
    [setTimeout], or the rest of an async function parked on an [await] of a
    network call. *)
Inductive Task :=
| AwaitStartMatch        (* startNewMatch, on its fetch *)
| AwaitAIMove (k : Cont) (* makeAIMove, on its fetch *)
| TimerAIMove (move : nat) (* makeAIMove, setTimeout 500 *)
| TimerPlayAIvsAI        (* setTimeout of playAIvsAI, 1000 or 1500 *)
| AwaitAIvsAI            (* playAIvsAI, on its fetch *)
| AwaitSaveRound (result : EndResult) (k : Cont)
                         (* handleRoundEnd, on saveRound *)
| TimerRoundResult (result : EndResult)
                         (* handleRoundEnd, setTimeout 1500 *)
| TimerMatchResult       (* showRoundResultModal, setTimeout 500 *)
| AwaitSaveMatch.        (* showMatchResultModal, on saveMatchResult *)

(** The module state together with what the flow reads of the page (the
    class [active] of the two result modals) and the callbacks not yet run.
    Text, sounds and cell classes of the page are left out; the elements
    the code looks up by id are taken to exist. *)
Record World := mkWorld {
  state : GAME_STATE;
  roundModal : bool;
  matchModal : bool;
  pending : list Task
}.

(** Changes to one component of the world; [defer] queues a callback. *)
Definition upd (f : GAME_STATE -> GAME_STATE) (w : World) : World :=
  mkWorld (f (state w)) (roundModal w) (matchModal w) (pending w).
Definition set_roundModal v (w : World) : World :=
  mkWorld (state w) v (matchModal w) (pending w).
Definition set_matchModal v (w : World) : World :=
  mkWorld (state w) (roundModal w) v (pending w).
Definition defer (t : Task) (w : World) : World :=
  mkWorld (state w) (roundModal w) (matchModal w) (pending w ++ [t]).

(** Number of [.cell] elements of the page, [data-index] 0 to 8. *)
Definition cellCount : nat := 9.

(** The code after [await makeMove(...)] in the caller. *)
Definition resume (k : Cont) (w : World) : World :=
  match k with
  | Stop => w
  | ResumePlayAIvsAI =>
      if gameActive (state w) then defer TimerPlayAIvsAI w else w
  end.

(** [playAIvsAI], up to its [await fetch]. *)
Definition playAIvsAI (w : World) : World :=
  if negb (gameActive (state w)) then w else defer AwaitAIvsAI w.

(** [startNewRound] *)
Definition startNewRound (w : World) : World :=
  let w := upd (set_board (filled_null 9)) w in
  let w := upd (set_currentPlayer X) w in
  let w := upd (set_gameActive true) w in
  let w := upd (set_isAITurn false) w in
  if mode_is (currentMode (state w)) ai_vs_ai
  then defer TimerPlayAIvsAI w
  else w.

(** [handleRoundEnd], up to its [await saveRound(result)]. *)
Definition handleRoundEnd (k : Cont) (result : EndResult) (w : World)
  : World :=
  let w := upd (set_gameActive false) w in
  let w :=
    match result with
    | Win winner =>
        if strict_eq winner (Str X)
        then upd (fun g => set_player1Score (player1Score g + 1)%Z g) w
        else upd (fun g => set_player2Score (player2Score g + 1)%Z g) w
    | Draw => w
    end in
  defer (AwaitSaveRound result k) w.

(** [makeAIMove], up to its [await fetch]. *)
Definition makeAIMove (k : Cont) (w : World) : World :=
  defer (AwaitAIMove k) w.

(** [makeMove(index, player)], called with what follows its [await] in the
    caller.  When the page has no cell of that index, [cell.textContent]
    throws after the board write and the call ends there. *)
Definition makeMove (k : Cont) (index : nat) (player : Mark) (w : World)
  : World :=
  let w := upd (fun g => set_board (set (board g) index (Str player)) g) w in
  if cellCount <=? index then w
  else
    match checkGameEnd (board (state w)) with
    | Some result => handleRoundEnd k result w
    | None =>
        let w := upd (set_currentPlayer (other player)) w in
        if mode_is (currentMode (state w)) human_vs_ai
           && mark_eqb (currentPlayer (state w)) O
        then makeAIMove k (upd (set_isAITurn true) w)
        else resume k w
    end.

(** [handleCellClick(index)] *)
Definition handleCellClick (index : nat) (w : World) : World :=
  if negb (gameActive (state w)) then w
  else if negb (strict_eq (get (board (state w)) index) Null) then w
  else if isAITurn (state w) then w
  else makeMove Stop index (currentPlayer (state w)) w.

(** [showRoundResultModal(result)]: the branch on the score and the round. *)
Definition showRoundResultModal (result : EndResult) (w : World) : World :=
  if (player1Score (state w) =? 2)%Z || (player2Score (state w) =? 2)%Z
  then defer TimerMatchResult (set_roundModal false w)
  else if (currentRound (state w) =? 3)%Z
  then defer TimerMatchResult (set_roundModal false w)
  else set_roundModal true w.

(** [startNextRound] *)
Definition startNextRound (w : World) : World :=
  let w := set_roundModal false w in
  let w := upd (fun g => set_currentRound (currentRound g + 1)%Z g) w in
  startNewRound w.

(** [startNewMatch], the branch taken when the server answers [ok]. *)
Definition startNewMatch_ok (match_id : nat) (w : World) : World :=
  let w := upd (set_matchId (Some match_id)) w in
  let w := upd (set_currentRound 1%Z) w in
  let w := upd (set_player1Score 0%Z) w in
  let w := upd (set_player2Score 0%Z) w in
  startNewRound w.

(** [handlePlayAgain], up to the [await fetch] of [startNewMatch]. *)
Definition handlePlayAgain (w : World) : World :=
  defer AwaitStartMatch (set_matchModal false w).

(** The answer of the server to a request, as the code tells them apart:
    [response.ok] with the number it reads of the body ([data.move],
    [data.match_id]), a response that is not [ok], or a rejected [fetch]. *)
Inductive Reply := ReplyOk (n : nat) | ReplyNotOk | ReplyError.

(** Running the pending callback [t]; [r] is the server's answer when [t]
    waits for one. *)
Definition runTask (t : Task) (r : Reply) (w : World) : World :=
  match t with
  | AwaitStartMatch =>
      match r with
      | ReplyOk match_id => startNewMatch_ok match_id w
      | _ => w
      end
  | AwaitAIMove k =>
      match r with
      | ReplyOk move => resume k (defer (TimerAIMove move) w)
      | _ => resume k (upd (set_isAITurn false) w)
      end
  | TimerAIMove move =>
      makeMove Stop move O (upd (set_isAITurn false) w)
  | TimerPlayAIvsAI => playAIvsAI w
  | AwaitAIvsAI =>
      match r with
      | ReplyOk move =>
          makeMove ResumePlayAIvsAI move (currentPlayer (state w)) w
      | _ => w
      end
  | AwaitSaveRound result k =>
      resume k (defer (TimerRoundResult result) w)
  | TimerRoundResult result => showRoundResultModal result w
  | TimerMatchResult => defer AwaitSaveMatch w
  | AwaitSaveMatch => set_matchModal true w
  end.

(** What can happen next: a click on a cell, on the button of the round
    modal or on the one of the match modal, or the [n]-th pending callback
    being run. *)
Inductive Event :=
| Click (index : nat)
| NextRound
| PlayAgain
| Run (n : nat) (r : Reply).

(** The pending callbacks once the [n]-th has been taken out to run. *)
Fixpoint remove_nth (n : nat) (l : list Task) : list Task :=
  match n, l with
  | _, [] => []
  | 0, _ :: rest => rest
  | S m, t :: rest => t :: remove_nth m rest
  end.

(** One turn of the event loop.  A button can be clicked only while its
    modal is shown, a callback can run only while it is pending. *)
Definition step (e : Event) (w : World) : option World :=
  match e with
  | Click index => Some (handleCellClick index w)
  | NextRound => if roundModal w then Some (startNextRound w) else None
  | PlayAgain => if matchModal w then Some (handlePlayAgain w) else None
  | Run n r =>
      match nth_error (pending w) n with
      | Some t =>
          Some (runTask t r
                  (mkWorld (state w) (roundModal w) (matchModal w)
                           (remove_nth n (pending w))))
      | None => None
      end
  end.

(** The events of [trace] one after the other; [None] when one of them
    cannot happen in the world it meets. *)
Fixpoint run (trace : list Event) (w : World) : option World :=
  match trace with
  | [] => Some w
  | e :: rest =>
      match step e w with
      | Some w' => run rest w'
      | None => None
      end
  end.

(** The page once user 1 has logged in and chosen a mode (and a
    difficulty), and the server has answered the first [startNewMatch]. *)
Definition match_started (mode : Mode) (difficulty : option Difficulty)
    (match_id : nat) : World :=
  let g := set_currentUser (Some 1) initial_state in
  let g := set_currentMode (Some mode) g in
  let g := set_currentDifficulty difficulty g in
  startNewMatch_ok match_id (mkWorld g false false []).

(** The bounds of a best-of-3 match, as the table [matches] constrains them
    ([valid_round], [valid_scores], [max_best_of_3]). *)
Definition best_of_3 (g : GAME_STATE) : Prop :=
  (1 <= currentRound g <= 3)%Z /\
  (0 <= player1Score g <= 2)%Z /\
  (0 <= player2Score g <= 2)%Z.

(** The round is between 1 and [maxRound], each score between 0 and
    [maxScore]. *)
Definition bounded (g : GAME_STATE) (maxRound maxScore : Z) : Prop :=
  (1 <= currentRound g <= maxRound)%Z
  /\ (0 <= player1Score g <= maxScore)%Z
  /\ (0 <= player2Score g <= maxScore)%Z.

(** Where a match played by hand stands: a round is being played (with at
    most the AI's reply under way, and then the board locked by
    [isAITurn]); a round is over and its result is on its way to the modal;
    the round modal is shown; the match is over. *)
Inductive Phase (w : World) : Prop :=
| Playing :
    gameActive (state w) = true -> roundModal w = false ->
    matchModal w = false -> bounded (state w) 3 1 ->
    (pending w = []
     \/ isAITurn (state w) = true
        /\ (pending w = [AwaitAIMove Stop]
            \/ exists move, pending w = [TimerAIMove move])) ->
    Phase w
| RoundOver (result : EndResult) :
    gameActive (state w) = false -> roundModal w = false ->
    matchModal w = false -> bounded (state w) 3 2 ->
    (pending w = [AwaitSaveRound result Stop]
     \/ pending w = [TimerRoundResult result]) ->
    Phase w
| RoundShown :
    gameActive (state w) = false -> roundModal w = true ->
    matchModal w = false -> bounded (state w) 2 1 -> pending w = [] ->
    Phase w
| MatchOver :
    gameActive (state w) = false -> roundModal w = false ->
    bounded (state w) 3 2 ->
    (matchModal w = false
     /\ (pending w = [TimerMatchResult] \/ pending w = [AwaitSaveMatch]
         \/ pending w = [AwaitStartMatch] \/ pending w = [])
     \/ matchModal w = true /\ pending w = []) ->
    Phase w.

(** The invariant of a session in a mode other than [ai_vs_ai]. *)
Definition human_session (w : World) : Prop :=
  mode_is (currentMode (state w)) ai_vs_ai = false /\ Phase w.

(** The first pending callback runs; for a timer, which reads no answer. *)
Definition timer : Event := Run 0 ReplyError.

(** One turn of [playAIvsAI]: its timer fires, the request goes out, and the
    server answers with [move]. *)
Definition ai_plays (move : nat) : list Event :=
  [timer; Run 0 (ReplyOk move)].

(** An AI-vs-AI match.  Round 1: X takes 0, 1, 2 against 3, 4 and wins; the
    round is saved, the modal shows, the next round is started.  Round 2: the
    same moves up to X on 0, 1 and O on 3, 4; while the request for X's next
    move is out, cell 2 is clicked, which wins the round for X; then the
    server's answer, move 2, arrives. *)
Definition race_trace : list Event :=
  ai_plays 0 ++ ai_plays 3 ++ ai_plays 1 ++ ai_plays 4 ++ ai_plays 2
  ++ [timer; timer; NextRound]
  ++ ai_plays 0 ++ ai_plays 3 ++ ai_plays 1 ++ ai_plays 4
  ++ [timer; Click 2; Run 0 (ReplyOk 2)].

(** What follows [race_trace]: both saves are answered, the first result
    timer fires, and the button of the round modal is clicked. *)
Definition race_goes_on : list Event :=
  [timer; timer; timer; NextRound].

(** The world [race_trace ++ race_goes_on] ends in: round 3 is being played
    with the score at 3 to 0. *)
Definition race_next_round : World :=
  mkWorld
    (mkState (Some 1) (Some ai_vs_ai) None (Some 1) 3%Z 3%Z 0%Z
             (filled_null 9) X true false)
    false false
    [TimerRoundResult (Win (Str X)); TimerPlayAIvsAI].

(** A round played by hand in which X takes the top row. *)
Definition round_won_by_X : list Event :=
  [Click 0; Click 3; Click 1; Click 4; Click 2; timer; timer].

(** A human-vs-human match that X wins 2 to 0: two such rounds, then the
    two callbacks that bring up the match modal. *)
Definition human_trace : list Event :=
  round_won_by_X ++ [NextRound] ++ round_won_by_X ++ [timer; timer].

(** The world [human_trace] ends in. *)
Definition human_outcome : World :=
  mkWorld
    (mkState (Some 1) (Some human_vs_human) None (Some 1) 2%Z 2%Z 0%Z
             [Str X; Str X; Str X; Str O; Str O; Null; Null; Null; Null]
             X false false)
    false true [].

(** The world [race_trace] ends in: round 2, score 3 to 0, and two saves of
    the same round on their way to the server. *)
Definition race_outcome : World :=
  mkWorld
    (mkState (Some 1) (Some ai_vs_ai) None (Some 1) 2%Z 3%Z 0%Z
             [Str X; Str X; Str X; Str O; Str O; Null; Null; Null; Null]
             X false false)
    false false
    [AwaitSaveRound (Win (Str X)) Stop;
     AwaitSaveRound (Win (Str X)) ResumePlayAIvsAI].

End Flow.

(* ================================================================== *)
(** ** The move engine called through [POST /ai/move] *)
(* ================================================================== *)

Module Engine.
Import Game.

(** Modelled from the spec: a cell of the engine's board, Empty ([None]), X
    or O.  The engine itself (the server side of [/ai/move]) is not among
    the sources; only its caller [makeAIMove] is. *)
Definition Cell := option Mark.

(** Modelled from the spec: the board, an ordered sequence of cells. *)
Definition Board := list Cell.

(** Modelled from the spec: the difficulty tiers of the engine. *)
Inductive Difficulty := Easy | Medium | Hard.

(** Modelled from the spec: the failure kinds of the engine. *)
Inductive EngineError := NoLegalMoves | InvalidBoard | InvalidPlayer.

(** Modelled from the spec: the result value [MoveDecision] of the engine. *)
Record MoveDecision := mkDecision {
  move : nat;
  score : Z;
  nodes_evaluated : N;
  branches_pruned : N;
  explanation : string
}.

(** Modelled from the spec: the 8 fixed lines of the engine, rows, columns,
    diagonals. *)
Definition lines : list Pattern :=
  [ (0, 1, 2); (3, 4, 5); (6, 7, 8);
    (0, 3, 6); (1, 4, 7); (2, 5, 8);
    (0, 4, 8); (2, 4, 6) ].

(** Modelled from the spec: the cell of index [i]; indices past the board
    read as Empty. *)
Definition cell (b : Board) (i : nat) : Cell := nth i b None.

(** Modelled from the spec: the mark that fills a line with three identical
    non-empty marks, if any. *)
Definition line_mark (b : Board) (l : Pattern) : option Mark :=
  let '(x, y, z) := l in
  match cell b x, cell b y, cell b z with
  | Some m1, Some m2, Some m3 =>
      if mark_eqb m1 m2 && mark_eqb m1 m3 then Some m1 else None
  | _, _, _ => None
  end.

(** Modelled from the spec: the first complete line among [ls]. *)
Fixpoint winner_in (b : Board) (ls : list Pattern) : option Mark :=
  match ls with
  | [] => None
  | l :: rest =>
      match line_mark b l with
      | Some m => Some m
      | None => winner_in b rest
      end
  end.

(** Modelled from the spec: win detection of the engine over the 8 lines. *)
Definition winner (b : Board) : option Mark := winner_in b lines.

(** Modelled from the spec: indices of the Empty cells from position [i]
    on, in ascending order. *)
Fixpoint emptyFrom (i : nat) (b : Board) : list nat :=
  match b with
  | [] => []
  | None :: rest => i :: emptyFrom (S i) rest
  | Some _ :: rest => emptyFrom (S i) rest
  end.

(** Modelled from the spec: the legal moves of a board, lowest index
    first. *)
Definition emptyCells (b : Board) : list nat := emptyFrom 0 b.

(** Modelled from the spec: the board after mark [m] is put on cell [i]. *)
Fixpoint place (b : Board) (i : nat) (m : Mark) : Board :=
  match b, i with
  | [], _ => []
  | _ :: rest, 0 => Some m :: rest
  | c :: rest, S j => c :: place rest j m
  end.

(** Modelled from the spec: the score of a terminal board [depth] plies
    below the root, for the player [me] the engine moves for:
    [10 - depth] for a win of [me], [-10 + depth] for a win of the opponent,
    [0] for a draw; [None] when the board is not terminal. *)
Definition terminalScore (me : Mark) (b : Board) (depth : Z) : option Z :=
  match winner b with
  | Some m => if mark_eqb m me then Some (10 - depth)%Z
              else Some (- 10 + depth)%Z
  | None => match emptyCells b with
            | [] => Some 0%Z
            | _ :: _ => None
            end
  end.

(** Modelled from the spec: the two counters of a search, threaded through
    the recursion. *)
Record Stats := mkStats { nodes : N; pruned : N }.

(** Modelled from the spec: one more node visited. *)
Definition visit (st : Stats) : Stats :=
  mkStats (nodes st + 1) (pruned st).

(** Modelled from the spec: [n] sibling subtrees skipped by a cut-off. *)
Definition prune (n : nat) (st : Stats) : Stats :=
  mkStats (nodes st) (pruned st + N.of_nat n).

(** Modelled from the spec: the initial lower bound of the search window,
    below every score. *)
Definition NEG_INF : Z := (-1000)%Z.

(** Modelled from the spec: the initial upper bound of the search window,
    above every score. *)
Definition POS_INF : Z := 1000%Z.

(** Modelled from the spec: the loop of a node over its legal moves
    [cells], in ascending index order; [eval i alpha beta st] searches the
    subtree of move [i].  A maximising node raises [alpha], a minimising
    node lowers [beta]; once the window is empty the remaining moves are
    skipped and counted as pruned, one per skipped subtree. *)
Fixpoint children (eval : nat -> Z -> Z -> Stats -> Z * Stats)
    (maximizing : bool) (cells : list nat) (best alpha beta : Z)
    (st : Stats) : Z * Stats :=
  match cells with
  | [] => (best, st)
  | i :: rest =>
      let '(v, st) := eval i alpha beta st in
      if maximizing then
        let best := Z.max best v in
        let alpha := Z.max alpha best in
        if (beta <=? alpha)%Z
        then (best, prune (length rest) st)
        else children eval maximizing rest best alpha beta st
      else
        let best := Z.min best v in
        let beta := Z.min beta best in
        if (beta <=? alpha)%Z
        then (best, prune (length rest) st)
        else children eval maximizing rest best alpha beta st
  end.

(** Modelled from the spec: alpha-beta search of the tree below board [b]
    with [turn] to move, at [depth] plies from the root; [me] maximises, the
    opponent minimises.  The terminal check comes first at every node and
    every visited node is counted once.  [fuel] bounds the number of plies
    still to play; the number of Empty cells is enough. *)
Fixpoint search (fuel : nat) (me : Mark) (b : Board) (turn : Mark)
    (depth alpha beta : Z) (st : Stats) : Z * Stats :=
  let st := visit st in
  match terminalScore me b depth with
  | Some s => (s, st)
  | None =>
      match fuel with
      | 0 => (0%Z, st)
      | S fuel' =>
          let maximizing := mark_eqb turn me in
          children
            (fun i alpha beta st =>
               search fuel' me (place b i turn) (other turn) (depth + 1)
                      alpha beta st)
            maximizing (emptyCells b)
            (if maximizing then NEG_INF else POS_INF) alpha beta st
      end
  end.

(** Modelled from the spec: the loop of the root over the legal moves, in
    ascending index order.  A move replaces the best one only with a
    strictly higher score, so the lowest index wins a tie. *)
Fixpoint rootLoop (fuel : nat) (me : Mark) (b : Board) (cells : list nat)
    (bestMove : nat) (bestScore : Z) (st : Stats) : nat * Z * Stats :=
  match cells with
  | [] => (bestMove, bestScore, st)
  | i :: rest =>
      let '(v, st) :=
        search fuel me (place b i me) (other me) 1 bestScore POS_INF st in
      if (bestScore <? v)%Z
      then rootLoop fuel me b rest i v st
      else rootLoop fuel me b rest bestMove bestScore st
  end.

(** Modelled from the spec: the reasoning category of a move, as text. *)
Definition explain (me : Mark) (b : Board) (i : nat) : string :=
  match winner (place b i me) with
  | Some _ => "completes a winning line"%string
  | None =>
      match winner (place b i (other me)) with
      | Some _ => "blocks opponent's winning line"%string
      | None =>
          if i =? 4 then "takes center for positional advantage"%string
          else "best move found by exhaustive search"%string
      end
  end.

(** Modelled from the spec: the Hard policy, on a board whose first legal
    move is [first]: the full search from the root, the root itself counted
    as a visited node. *)
Definition hardDecision (me : Mark) (b : Board) (first : nat)
  : MoveDecision :=
  let '(m, v, st) :=
    rootLoop (length (emptyCells b)) me b (emptyCells b) first NEG_INF
             (mkStats 1 0) in
  mkDecision m v (nodes st) (pruned st) (explain me b m).

(** Modelled from the spec: the state of the injected, seedable
    generator. *)
Definition Rng := N.

(** Modelled from the spec: a draw below [bound], with the next state of the
    generator. *)
Definition draw (g : Rng) (bound : N) : N * Rng :=
  let g' := ((g * 1103515245 + 12345) mod 2147483648)%N in
  ((g' / 65536) mod bound, g')%N.

(** Modelled from the spec: the Easy policy, a legal move drawn uniformly
    from the generator. *)
Definition easyDecision (g : Rng) (b : Board) (first : nat) : MoveDecision :=
  let cells := emptyCells b in
  let '(k, _) := draw g (N.of_nat (length cells)) in
  mkDecision (nth (N.to_nat k) cells first) 0 0 0
             "random exploratory move"%string.

(** Modelled from the spec: the Medium policy: the Hard choice, given up
    for a random legal move on 30 draws out of 100. *)
Definition mediumDecision (g : Rng) (me : Mark) (b : Board) (first : nat)
  : MoveDecision :=
  let '(r, g') := draw g 100 in
  if (r <? 30)%N then easyDecision g' b first
  else hardDecision me b first.

(** Modelled from the spec: [computeMove(board, player, difficulty)], with
    the injected generator [g]: [InvalidBoard] on a wrong cell count,
    [NoLegalMoves] on a board without Empty cell, else the decision of the
    policy of the difficulty. *)
Definition computeMove (g : Rng) (b : Board) (me : Mark) (d : Difficulty)
  : EngineError + MoveDecision :=
  if negb (length b =? 9) then inl InvalidBoard
  else
    match emptyCells b with
    | [] => inl NoLegalMoves
    | first :: _ =>
        inr match d with
            | Easy => easyDecision g b first
            | Medium => mediumDecision g me b first
            | Hard => hardDecision me b first
            end
    end.

(** Modelled from the spec: every board of [n] cells. *)
Fixpoint boards (n : nat) : list Board :=
  match n with
  | 0 => [[]]
  | S k => flat_map (fun b => [None :: b; Some X :: b; Some O :: b])
                    (boards k)
  end.

(** Modelled from the spec: putting [me] on cell [i] completes a line of
    [me]. *)
Definition wins_at (b : Board) (me : Mark) (i : nat) : bool :=
  match winner (place b i me) with
  | Some m => mark_eqb m me
  | None => false
  end.

(** Modelled from the spec: on a non-terminal board with a win in one for
    [me], the Hard decision is a legal move that wins at once (decidable
    form, checked over [boards 9]). *)
Definition takes_win (b : Board) (me : Mark) : bool :=
  match terminalScore me b 0, emptyCells b with
  | None, first :: _ =>
      if existsb (wins_at b me) (emptyCells b)
      then let d := hardDecision me b first in
           existsb (Nat.eqb (move d)) (emptyCells b) && wins_at b me (move d)
      else true
  | _, _ => true
  end.

(** Modelled from the spec: the board of scenario 1,
    [[X,X,null,O,O,null,null,null,null]]. *)
Definition scenario1 : Board :=
  [Some X; Some X; None; Some O; Some O; None; None; None; None].

(** Modelled from the spec: a full board with no complete line. *)
Definition scenario3 : Board :=
  [Some X; Some O; Some X; Some X; Some O; Some O; Some O; Some X; Some X].

End Engine.

(* ================================================================== *)
(** ** Statistics of the schema: [calculate_win_rate], [user_statistics] *)
(* ================================================================== *)

Module Db.

(** A nullable [INTEGER] column; [NULL] is [None]. *)
Definition sql_int := option Z.

(** A nullable [DECIMAL]; the values are exact rationals. *)
Definition sql_decimal := option Q.

(** A nullable boolean, the value of a comparison. *)
Definition sql_bool := option bool.

(** The columns of [users] the statistics read.  The counters have a
    default but no [NOT NULL], and the [CHECK] on them passes on [NULL]. *)
Record user := mkUser {
  id : nat;
  username : string;
  email : string;
  total_matches : sql_int;
  matches_won : sql_int;
  matches_lost : sql_int;
  matches_drawn : sql_int
}.

(** What evaluating an expression yields: a value, or the error
    [division_by_zero]. *)
Inductive outcome (A : Type) :=
| Value (v : A)
| Raise_division_by_zero.
Arguments Value {A} v.
Arguments Raise_division_by_zero {A}.

(** Sequencing: an error ends the evaluation. *)
Definition bind {A B} (x : outcome A) (f : A -> outcome B) : outcome B :=
  match x with
  | Value v => f v
  | Raise_division_by_zero => Raise_division_by_zero
  end.

(** [x = n] on integers: [NULL] when [x] is. *)
Definition sql_eq_int (x : sql_int) (n : Z) : sql_bool :=
  match x with
  | Some v => Some (v =? n)%Z
  | None => None
  end.

(** [x::DECIMAL] *)
Definition to_decimal (x : sql_int) : sql_decimal :=
  match x with
  | Some v => Some (inject_Z v)
  | None => None
  end.

(** [x / y] on decimals: [NULL] when an operand is, the error on a zero
    divisor.  The quotient is exact; on [INTEGER] operands the digits the
    server drops from it are too few to move the rounding to one decimal
    below. *)
Definition sql_div (x y : sql_decimal) : outcome sql_decimal :=
  match x, y with
  | Some a, Some b =>
      if Qeq_bool b 0 then Raise_division_by_zero
      else Value (Some (a / b)%Q)
  | _, _ => Value None
  end.

(** [x * n] on decimals. *)
Definition sql_mul (x : sql_decimal) (n : Q) : sql_decimal :=
  match x with
  | Some a => Some (a * n)%Q
  | None => None
  end.

(** Rounding of a rational to one decimal, ties away from zero. *)
Definition round1 (q : Q) : Q :=
  let n := (Qnum q * 10)%Z in
  let d := Zpos (Qden q) in
  let tenths :=
    if (0 <=? n)%Z then ((2 * n + d) / (2 * d))%Z
    else (- ((2 * (- n) + d) / (2 * d)))%Z in
  Qmake tenths 10.

(** [ROUND(x, 1)] *)
Definition sql_round1 (x : sql_decimal) : sql_decimal :=
  match x with
  | Some a => Some (round1 a)
  | None => None
  end.

(** [SELECT ... FROM users WHERE id = user_uuid], the row [INTO] reads. *)
Definition select_user (users : list user) (user_uuid : nat) : option user :=
  find (fun u => id u =? user_uuid) users.

(** [ROUND((won::DECIMAL / total::DECIMAL) * 100, 1)] *)
Definition rate_expr (won total : sql_int) : outcome sql_decimal :=
  bind (sql_div (to_decimal won) (to_decimal total))
       (fun q => Value (sql_round1 (sql_mul q 100))).

(** The function [calculate_win_rate(user_uuid)].  With no row selected the
    two variables stay [NULL]; [IF] takes its branch only on [true]. *)
Definition calculate_win_rate (users : list user) (user_uuid : nat)
  : outcome sql_decimal :=
  let '(total, won) :=
    match select_user users user_uuid with
    | Some u => (total_matches u, matches_won u)
    | None => (None, None)
    end in
  match sql_eq_int total 0 with
  | Some true => Value (Some 0%Q)
  | _ => rate_expr won total
  end.

(** A row of the view [user_statistics], the columns about matches. *)
Record statistics_row := mkRow {
  row_id : nat;
  row_username : string;
  row_total_matches : sql_int;
  row_matches_won : sql_int;
  win_rate_percentage : sql_decimal
}.

(** The [CASE WHEN u.total_matches = 0 THEN 0 ELSE ROUND(...) END] column of
    the view, for one row of [users]. *)
Definition view_row (u : user) : outcome statistics_row :=
  bind (match sql_eq_int (total_matches u) 0 with
        | Some true => Value (Some 0%Q)
        | _ => rate_expr (matches_won u) (total_matches u)
        end)
       (fun r => Value (mkRow (id u) (username u) (total_matches u)
                              (matches_won u) r)).

(** The view [user_statistics]: one row per user; an error in a row is the
    error of the query. *)
Fixpoint user_statistics (users : list user) : outcome (list statistics_row) :=
  match users with
  | [] => Value []
  | u :: rest =>
      bind (view_row u) (fun r =>
      bind (user_statistics rest) (fun rs => Value (r :: rs)))
  end.

(** The win rate in closed form: [0] on no match played, the rounded
    percentage otherwise, [NULL] where the percentage has a [NULL]
    operand. *)
Definition win_rate (total won : sql_int) : sql_decimal :=
  match total, won with
  | Some 0%Z, _ => Some 0%Q
  | Some t, Some w => Some (round1 (inject_Z w / inject_Z t * 100)%Q)
  | _, _ => None
  end.

(** The sample row the schema inserts. *)
Definition sample_user : user :=
  mkUser 1 "Marcus" "marcuoji@gmail.com" (Some 0%Z) (Some 0%Z) (Some 0%Z)
         (Some 0%Z).

End Db.

(* ================================================================== *)
(** ** Round outcomes, requests and invariants of the match flow *)
(* ================================================================== *)

Module Play.
Import Game Flow.



(** The body [saveRound(result)] posts, read off [GAME_STATE] when it is
    called. *)
Record RoundBody := mkRoundBody {
  round_number : Z;
  winner : Val;
  board_state : Array;
  player1_score : Z;
  player2_score : Z
}.

(** [saveRound(result)]: the body of the request; [winner] is
    [result.type === 'win' ? result.winner : null]. *)
Definition saveRound_body (result : EndResult) (g : GAME_STATE) : RoundBody :=
  mkRoundBody (currentRound g)
              match result with Win v => v | Draw => Null end
              (board g) (player1Score g) (player2Score g).

(** The [CHECK] constraints of table [rounds] on such a body:
    [valid_round_number], [valid_winner], [valid_board_state]. *)
Definition rounds_checks (b : RoundBody) : Prop :=
  (1 <= round_number b <= 3)%Z
  /\ (winner b = Null \/ winner b = Str X \/ winner b = Str O)
  /\ length (board_state b) = 9.

(** Number of cells of the board that hold mark [m]. *)
Definition count_mark (m : Mark) (b : Array) : nat :=
  length (filter (strict_eq (Str m)) b).

(** The board of a round played by hand: 9 cells, no hole, X one mark ahead
    or level, and while the round runs the turn is X's exactly when the marks
    are level. *)
Definition turn_order (g : GAME_STATE) : Prop :=
  length (board g) = 9
  /\ ~ In Undefined (board g)
  /\ (count_mark X (board g) = count_mark O (board g)
      \/ count_mark X (board g) = S (count_mark O (board g)))
  /\ (gameActive g = true ->
      (currentPlayer g = X /\
       count_mark X (board g) = count_mark O (board g))
      \/ (currentPlayer g = O /\
          count_mark X (board g) = S (count_mark O (board g)))).

(** The round results on their way to the server name a mark as winner. *)
Definition results_named (w : World) : Prop :=
  forall v k, In (AwaitSaveRound (Win v) k) (pending w) ->
              exists m, v = Str m.

(** The invariant of a session in [human_vs_human] mode. *)
Definition by_hand (w : World) : Prop :=
  human_session w
  /\ currentMode (state w) = Some human_vs_human
  /\ isAITurn (state w) = false
  /\ turn_order (state w)
  /\ results_named w.









End Play.

(* ================================================================== *)
(** ** JavaScript strings *)
(* ================================================================== *)

Module Text.

(** A JavaScript string, the sequence of its UTF-16 code units. *)
Definition jsstring := list N.

(** The string a literal of the source denotes (ASCII only). *)
Definition lit (s : string) : jsstring :=
  map N_of_ascii (list_ascii_of_string s).

(** [s.length] *)
Definition jslength (s : jsstring) : nat := length s.

(** [!s] on a string: only the empty string is falsy. *)
Definition falsy (s : jsstring) : bool :=
  match s with [] => true | _ :: _ => false end.

(** [s === t] on strings. *)
Fixpoint str_eqb (s t : jsstring) : bool :=
  match s, t with
  | [], [] => true
  | c :: s', d :: t' => (c =? d)%N && str_eqb s' t'
  | _, _ => false
  end.

(** [s.startsWith(t)] *)
Fixpoint startsWith (s t : jsstring) : bool :=
  match t, s with
  | [], _ => true
  | d :: t', c :: s' => (c =? d)%N && startsWith s' t'
  | _ :: _, [] => false
  end.

(** [s.includes(t)]: [t] occurs in [s] at some position. *)
Fixpoint includes (s t : jsstring) : bool :=
  startsWith s t
  || match s with
     | [] => false
     | _ :: s' => includes s' t
     end.

(** The code units [String.prototype.trim] strips and the class [\s] of a
    regular expression matches: WhiteSpace and LineTerminator. *)
Definition isSpace (c : N) : bool :=
  ((9 <=? c) && (c <=? 13)      (* TAB, LF, VT, FF, CR *)
   || (c =? 32)                 (* SPACE *)
   || (c =? 160)                (* NO-BREAK SPACE *)
   || (c =? 5760)               (* U+1680 *)
   || (8192 <=? c) && (c <=? 8202)  (* U+2000 to U+200A *)
   || (c =? 8232) || (c =? 8233)    (* U+2028, U+2029 *)
   || (c =? 8239) || (c =? 8287)    (* U+202F, U+205F *)
   || (c =? 12288)              (* U+3000 *)
   || (c =? 65279))%N.          (* U+FEFF *)

(** The string without its leading white space. *)
Fixpoint trimStart (s : jsstring) : jsstring :=
  match s with
  | [] => []
  | c :: s' => if isSpace c then trimStart s' else s
  end.

(** [s.trim()] *)
Definition trim (s : jsstring) : jsstring :=
  rev (trimStart (rev (trimStart s))).

End Text.

(* ================================================================== *)
(** ** Statistics charts of the client: the figures they plot *)
(* ================================================================== *)

Module Charts.
Import Text.

(** A field of the [stats] object where the code expects a number: absent
    ([undefined]), [null], or a number (the integer counts of table
    [users]). *)
Inductive Field := Missing | JsNull | Number (n : Z).






(** The fields of [stats] that [createResultsChart] reads. *)
Record Stats := mkStats {
  total_matches : Field;
  matches_won : Field;
  matches_lost : Field
}.


(** An entry of [stats.match_history], with the fields the chart helpers
    read: [date] as the time value of [new Date(match.date)] (a valid date),
    [difficulty] and [result] as a string or [null]. *)
Record HistoryEntry := mkEntry {
  date : Z;
  difficulty : option jsstring;
  result : option jsstring
}.

(** [x || d] on a string or [null]: the empty string is falsy too. *)
Definition orDefault (x : option jsstring) (d : jsstring) : jsstring :=
  match x with
  | Some (c :: s) => c :: s
  | _ => d
  end.

(** The three counters of one difficulty. *)
Record Counts := mkCounts { wins : nat; losses : nat; draws : nat }.

(** The object [performance]. *)
Record Performance := mkPerformance {
  easy : Counts;
  medium : Counts;
  hard : Counts
}.

(** The own keys of [performance]. *)
Inductive Key := KEasy | KMedium | KHard.

(** The counters [performance[difficulty]] stands for.  Any other name
    reads [undefined], or a member inherited from [Object.prototype], whose
    update leaves the three own counters as they are. *)
Definition ownKey (d : jsstring) : option Key :=
  if str_eqb d (lit "easy") then Some KEasy
  else if str_eqb d (lit "medium") then Some KMedium
  else if str_eqb d (lit "hard") then Some KHard
  else None.

Section WithLowerCase.

(** [String.prototype.toLowerCase] *)
Variable toLowerCase : jsstring -> jsstring.

(** [(match.result || '').toLowerCase()] *)
Definition lowerResult (m : HistoryEntry) : jsstring :=
  toLowerCase (orDefault (result m) []).

(** [result.includes('win') || result.includes('won')] *)
Definition isWin (m : HistoryEntry) : bool :=
  includes (lowerResult m) (lit "win")
  || includes (lowerResult m) (lit "won").

(** [result.includes('loss') || result.includes('lost')] *)
Definition isLoss (m : HistoryEntry) : bool :=
  includes (lowerResult m) (lit "loss")
  || includes (lowerResult m) (lit "lost").

(** The [if]/[else if]/[else] that bumps one counter. *)
Definition bump (c : Counts) (m : HistoryEntry) : Counts :=
  if isWin m then mkCounts (S (wins c)) (losses c) (draws c)
  else if isLoss m then mkCounts (wins c) (S (losses c)) (draws c)
  else mkCounts (wins c) (losses c) (S (draws c)).

(** [(match.difficulty || 'easy').toLowerCase()] looked up in
    [performance]. *)
Definition keyOf (m : HistoryEntry) : option Key :=
  ownKey (toLowerCase (orDefault (difficulty m) (lit "easy"))).

(** The body of the [forEach] of [calculatePerformanceByDifficulty]. *)
Definition tallyMatch (p : Performance) (m : HistoryEntry) : Performance :=
  match keyOf m with
  | Some KEasy => mkPerformance (bump (easy p) m) (medium p) (hard p)
  | Some KMedium => mkPerformance (easy p) (bump (medium p) m) (hard p)
  | Some KHard => mkPerformance (easy p) (medium p) (bump (hard p) m)
  | None => p
  end.

(** [calculatePerformanceByDifficulty(history)] *)
Definition calculatePerformanceByDifficulty (history : list HistoryEntry)
  : Performance :=
  fold_left tallyMatch history
            (mkPerformance (mkCounts 0 0 0) (mkCounts 0 0 0)
                           (mkCounts 0 0 0)).

(** The entry [m] is counted under [k]. *)
Definition countedUnder (k : Key) (m : HistoryEntry) : bool :=
  match keyOf m, k with
  | Some KEasy, KEasy | Some KMedium, KMedium | Some KHard, KHard => true
  | _, _ => false
  end.

(** The entries of [history] counted under [k]. *)
Definition under (k : Key) (history : list HistoryEntry)
  : list HistoryEntry :=
  filter (countedUnder k) history.

(** The counters of [k] in [p]. *)
Definition counts (p : Performance) (k : Key) : Counts :=
  match k with
  | KEasy => easy p
  | KMedium => medium p
  | KHard => hard p
  end.

(** Insertion of [m] into a list sorted by date, before the first entry
    that is not earlier. *)
Fixpoint insertByDate (m : HistoryEntry) (sorted : list HistoryEntry)
  : list HistoryEntry :=
  match sorted with
  | [] => [m]
  | x :: rest =>
      if (date m <=? date x)%Z then m :: sorted
      else x :: insertByDate m rest
  end.

(** [[...history].sort((a, b) => new Date(a.date) - new Date(b.date))]: the
    sort is stable, so on valid dates its result is the one of this
    insertion sort. *)
Definition sortByDate (history : list HistoryEntry) : list HistoryEntry :=
  fold_right insertByDate [] history.

(** A point of the trend: the [n] of its label [Match n], and the operands
    [wins] and [total] of its value [(wins / total) * 100]. *)
Record Point := mkPoint { label : nat; pointWins : nat; pointTotal : nat }.

(** The [forEach] of [calculateWinRateTrend] from entry [index] on, [len]
    being [sorted.length]. *)
Fixpoint trendLoop (sorted : list HistoryEntry) (index len wins total : nat)
  : list Point :=
  match sorted with
  | [] => []
  | m :: rest =>
      let total := S total in
      let wins := if isWin m then S wins else wins in
      let points := trendLoop rest (S index) len wins total in
      if ((index + 1) mod 5 =? 0) || (index =? len - 1)
      then mkPoint (index + 1) wins total :: points
      else points
  end.

(** What [calculateWinRateTrend] returns: the single point
    [No matches yet] / 0, or the points of the loop. *)
Inductive Trend := NoMatchesYet | Series (points : list Point).

(** [calculateWinRateTrend(history)] *)
Definition calculateWinRateTrend (history : list HistoryEntry) : Trend :=
  match history with
  | [] => NoMatchesYet
  | _ :: _ =>
      let sorted := sortByDate history in
      Series (trendLoop sorted 0 (length sorted) 0 0)
  end.

(** Number of winning entries. *)
Definition countWins (l : list HistoryEntry) : nat :=
  length (filter isWin l).

(** The numbers the trend has a point at: the multiples of 5 up to [n], and
    [n]. *)
Definition checkpoints (n : nat) : list nat :=
  filter (fun k => (k mod 5 =? 0) || (k =? n)) (seq 1 n).

End WithLowerCase.

(** Lower case of the letters A to Z, what [toLowerCase] does on ASCII. *)
Definition asciiLower (s : jsstring) : jsstring :=
  map (fun c => if (65 <=? c)%N && (c <=? 90)%N then (c + 32)%N else c) s.

(** A history of seven matches. *)
Definition sample_history : list HistoryEntry :=
  [ mkEntry 70 (Some (lit "Hard")) (Some (lit "Win"));
    mkEntry 10 None (Some (lit "Loss"));
    mkEntry 30 (Some (lit "medium")) (Some (lit "Draw"));
    mkEntry 20 (Some (lit "easy")) (Some (lit "You won"));
    mkEntry 50 (Some (lit "expert")) (Some (lit "Win"));
    mkEntry 40 (Some (lit "hard")) None;
    mkEntry 60 (Some (lit "HARD")) (Some (lit "lost")) ].

End Charts.

(* ================================================================== *)
(** ** Regular expressions of the forms and of the schema *)
(* ================================================================== *)

Module Regex.
Import Text.

(** An item of a regular expression of the shape the program uses: one given
    character, or a character class repeated more than [n] times, so that
    [class+] is [MoreThan 0 class] and [class{2,}] is [MoreThan 1 class]. *)
Inductive Item :=
| Lit (c : N)
| MoreThan (n : nat) (class : N -> bool).

(** The whole of [s] is matched by the items in a row, for some lengths of
    the repetitions: [/^ items $/.test(s)]. *)
Fixpoint test (s : jsstring) (items : list Item) {struct s} : bool :=
  match s with
  | [] => match items with [] => true | _ :: _ => false end
  | c :: s' =>
      match items with
      | [] => false
      | Lit d :: rest => (c =? d)%N && test s' rest
      | MoreThan 0 class :: rest =>
          class c && (test s' rest || test s' items)
      | MoreThan (S n) class :: rest =>
          class c && test s' (MoreThan n class :: rest)
      end
  end.

End Regex.

(* ================================================================== *)
(** ** Validation of the sign-up, sign-in and reset forms *)
(* ================================================================== *)

Module Auth.
Import Text Regex.

(** The class [[^\s@]]. *)
Definition notSpaceOrAt (c : N) : bool :=
  negb (isSpace c) && negb (c =? 64)%N.

(** The constant [emailRegex], [/^[^\s@]+@[^\s@]+\.[^\s@]+$/]. *)
Definition emailRegex : list Item :=
  [MoreThan 0 notSpaceOrAt; Lit 64; MoreThan 0 notSpaceOrAt; Lit 46;
   MoreThan 0 notSpaceOrAt].

(** What a form handler does with its input: it shows a message and
    returns, or sends its request with these fields. *)
Inductive Outcome :=
| ShowError (message : string)
| Send (fields : list jsstring).

(** [handleRegister], from the values of the three inputs to the [fetch]:
    the user name and the e-mail are trimmed, the password is not. *)
Definition handleRegister (inputUsername inputEmail inputPassword : jsstring)
  : Outcome :=
  let username := trim inputUsername in
  let email := trim inputEmail in
  let password := inputPassword in
  if falsy username || falsy email || falsy password
  then ShowError "Please fill in all fields."
  else if jslength username <? 3
  then ShowError "Username must be at least 3 characters."
  else if jslength password <? 6
  then ShowError "Password must be at least 6 characters."
  else if negb (test email emailRegex)
  then ShowError "Please enter a valid email address."
  else Send [username; email; password].

(** [handleLogin], from the values of the two inputs to the [fetch]. *)
Definition handleLogin (inputUsername inputPassword : jsstring) : Outcome :=
  let usernameOrEmail := trim inputUsername in
  let password := inputPassword in
  if falsy usernameOrEmail || falsy password
  then ShowError "Please enter username/email and password."
  else Send [usernameOrEmail; password].

(** [handleRequestReset], from the value of the input to the [fetch]. *)
Definition handleRequestReset (inputEmail : jsstring) : Outcome :=
  let email := trim inputEmail in
  if falsy email
  then ShowError "Please enter your email address."
  else if negb (test email emailRegex)
  then ShowError "Please enter a valid email address."
  else Send [email].

(** [showResetPasswordForm]: [answer] is what [prompt] returned, [None] for
    [null]; the result is the request of [handleResetPassword], if the
    function calls it. *)
Definition showResetPasswordForm (token : jsstring)
  (answer : option jsstring) : option (list jsstring) :=
  match answer with
  | None => None
  | Some newPassword =>
      if negb (falsy newPassword) && (6 <=? jslength newPassword)
      then Some [token; newPassword]
      else None
  end.

(** Number of occurrences of code unit [c]. *)
Definition occurrences (c : N) (s : jsstring) : nat :=
  length (filter (N.eqb c) s).

End Auth.

(* ================================================================== *)
(** ** The table [users]: e-mail constraint and reset tokens *)
(* ================================================================== *)

Module Users.
Import Text Regex.

(** [[A-Za-z]] *)
Definition letter (c : N) : bool :=
  ((65 <=? c) && (c <=? 90) || (97 <=? c) && (c <=? 122))%N.

(** [[0-9]] *)
Definition digit (c : N) : bool := ((48 <=? c) && (c <=? 57))%N.

(** [[A-Za-z0-9._%+-]] *)
Definition localClass (c : N) : bool :=
  (letter c || digit c
   || (c =? 46) || (c =? 95) || (c =? 37) || (c =? 43) || (c =? 45))%N.

(** [[A-Za-z0-9.-]] *)
Definition hostClass (c : N) : bool :=
  (letter c || digit c || (c =? 46) || (c =? 45))%N.

(** The constraint [email_format],
    [email ~* '^[A-Za-z0-9._%+-]+@[A-Za-z0-9.-]+\.[A-Za-z]{2,}$']: the
    classes hold both cases of every letter, so matching without regard to
    case matches the same strings. *)
Definition email_format : list Item :=
  [MoreThan 0 localClass; Lit 64; MoreThan 0 hostClass; Lit 46;
   MoreThan 1 letter].

(** The columns of a row of [users] that the reset of a password reads or
    writes; instants are numbers, [None] is [NULL]. *)
Record row := mkRow {
  id : nat;
  reset_token : option jsstring;
  reset_token_expires : option Z;
  updated_at : option Z
}.

(** [a < b] of SQL: unknown when an operand is [NULL]. *)
Definition sql_lt (a b : option Z) : option bool :=
  match a, b with
  | Some x, Some y => Some (x <? y)%Z
  | _, _ => None
  end.

(** [a IS NOT NULL] *)
Definition is_not_null {A : Type} (a : option A) : option bool :=
  match a with Some _ => Some true | None => Some false end.

(** [a AND b] of SQL. *)
Definition sql_and (a b : option bool) : option bool :=
  match a, b with
  | Some false, _ | _, Some false => Some false
  | Some true, Some true => Some true
  | _, _ => None
  end.

(** A [WHERE] clause selects the rows on which its condition is true. *)
Definition selects (condition : option bool) : bool :=
  match condition with Some true => true | _ => false end.

(** [reset_token IS NOT NULL AND reset_token_expires < NOW()] *)
Definition expired (now : Z) (r : row) : bool :=
  selects (sql_and (is_not_null (reset_token r))
                   (sql_lt (reset_token_expires r) (Some now))).

(** The trigger function [update_updated_at_column], run on the new row
    before every update of [users]. *)
Definition update_updated_at_column (now : Z) (new : row) : row :=
  mkRow (id new) (reset_token new) (reset_token_expires new) (Some now).

(** The [UPDATE] of [clean_expired_reset_tokens] on one row, followed by
    the trigger when the row is selected. *)
Definition clean_row (now : Z) (r : row) : row :=
  if expired now r
  then update_updated_at_column now (mkRow (id r) None None (updated_at r))
  else r.

(** [clean_expired_reset_tokens()] at instant [now]: the table afterwards
    and the returned [ROW_COUNT]. *)
Definition clean_expired_reset_tokens (now : Z) (users : list row)
  : list row * nat :=
  (map (clean_row now) users, length (filter (expired now) users)).

(** Does the row hold a reset token. *)
Definition holds_token (r : row) : bool :=
  match reset_token r with Some _ => true | None => false end.

(** The columns of a row other than [updated_at]. *)
Definition columns (r : row) : nat * option jsstring * option Z :=
  (id r, reset_token r, reset_token_expires r).

(** A table with an expired token, a token without expiry, a token still
    valid at 100 and an expiry left without its token. *)
Definition sample_users : list row :=
  [mkRow 1 (Some (lit "t1")) (Some 50%Z) (Some 5%Z);
   mkRow 2 (Some (lit "t2")) None (Some 5%Z);
   mkRow 3 (Some (lit "t3")) (Some 150%Z) (Some 5%Z);
   mkRow 4 None (Some 10%Z) None].

End Users.

(* ================================================================== *)
(** ** Properties of the board checks *)
(* ================================================================== *)

Module JsFacts.

Lemma mark_eqb_eq a b : mark_eqb a b = true <-> a = b.
Proof. destruct a, b; simpl; split; congruence. Qed.

Lemma strict_eq_eq a b : strict_eq a b = true <-> a = b.
Proof.
  destruct a, b; simpl; try (split; congruence).
  rewrite mark_eqb_eq. split; congruence.
Qed.

Lemma strict_eq_refl a : strict_eq a a = true.
Proof. now apply strict_eq_eq. Qed.

Lemma truthy_str v : truthy v = true <-> exists m, v = Str m.
Proof.
  destruct v; simpl; split; try congruence; eauto.
  all: intros [m H]; congruence.
Qed.

(** [every] answers [true] exactly when no cell is [null]. *)
Lemma every_not_null_spec arr :
  every_not_null arr = true <-> ~ In Null arr.
Proof.
  unfold every_not_null. rewrite forallb_forall. split.
  - intros H HIn. specialize (H _ HIn). discriminate.
  - intros H c Hc. destruct c; simpl; try reflexivity. contradiction.
Qed.

End JsFacts.

Module GameFacts.
Import Game JsFacts.

(** The test of one pattern succeeds exactly when it holds three times the
    same mark. *)
Lemma pattern_test_spec board a b c :
  truthy (get board a)
  && strict_eq (get board a) (get board b)
  && strict_eq (get board a) (get board c) = true
  <-> exists m, holds board (a, b, c) m.
Proof.
  rewrite !andb_true_iff, truthy_str, !strict_eq_eq. unfold holds. split.
  - intros [[[m Ha] Hb] Hc]. exists m. repeat split; congruence.
  - intros [m (Ha & Hb & Hc)]. repeat split; eauto; congruence.
Qed.

Lemma checkWinner_loop_some board patterns w :
  checkWinner_loop board patterns = Some w ->
  In (line w) patterns /\ exists m, player w = Str m /\ holds board (line w) m.
Proof.
  induction patterns as [|[[a b] c] rest IH]; simpl; [discriminate|].
  destruct (truthy (get board a) && _ && _) eqn:T.
  - intros [= <-]. simpl. split; [now left|].
    apply pattern_test_spec in T as [m Hm]. exists m.
    split; [apply Hm|exact Hm].
  - intros H. destruct (IH H) as [HIn Hm]. split; [now right|exact Hm].
Qed.

Lemma checkWinner_loop_none board patterns :
  checkWinner_loop board patterns = None <->
  forall p m, In p patterns -> ~ holds board p m.
Proof.
  induction patterns as [|[[a b] c] rest IH]; simpl.
  - split; [intros _ p m []|reflexivity].
  - destruct (truthy (get board a) && _ && _) eqn:T.
    + split; [discriminate|]. intros H. exfalso.
      apply pattern_test_spec in T as [m Hm]. apply (H (a, b, c) m); auto.
    + rewrite IH. split.
      * intros H p m [<-|HIn]; [|now apply H].
        intros Hm. assert (E : exists m, holds board (a, b, c) m) by eauto.
        apply pattern_test_spec in E. congruence.
      * intros H p m HIn. apply H. now right.
Qed.

Lemma checkWinner_none_iff board :
  checkWinner board = None <-> ~ has_line board.
Proof.
  unfold checkWinner, has_line. rewrite checkWinner_loop_none. split.
  - intros H (m & p & HIn & Hm). exact (H p m HIn Hm).
  - intros H p m HIn Hm. apply H. eauto.
Qed.

(** [checkWinner] on a few boards: a row, a diagonal, no line, and two
    complete lines, of which the first of the table is returned. *)
Example checkWinner_examples :
  checkWinner [Str X; Str X; Str X; Str O; Str O; Null; Null; Null; Null]
  = Some (mkWinner (Str X) (0, 1, 2))
  /\ checkWinner [Str O; Str X; Str X; Null; Str O; Null; Str X; Null; Str O]
     = Some (mkWinner (Str O) (0, 4, 8))
  /\ checkWinner [Str X; Str O; Str X; Str X; Str O; Str O; Str O; Str X;
                  Str X] = None
  /\ checkWinner [Null; Null; Null; Str O; Str O; Str O; Str X; Str X; Str X]
     = Some (mkWinner (Str O) (3, 4, 5))
  /\ checkWinner (filled_null 9) = None.
Proof. repeat split. Qed.

(** C1. [checkWinner] recognises a win exactly when one of the 8 fixed lines
    (rows 0-1-2, 3-4-5, 6-7-8, columns 0-3-6, 1-4-7, 2-5-8, diagonals 0-4-8,
    2-4-6) holds three identical marks: a returned winner names a line of the
    table whose three cells hold the returned mark, a winner is returned as
    soon as such a line exists, and [null] is returned exactly when none
    does.  This holds for every array, in particular for boards of 9 cells. *)
Theorem checkWinner_iff_line (board : Array) :
  winPatterns = [ (0, 1, 2); (3, 4, 5); (6, 7, 8); (0, 3, 6); (1, 4, 7);
                  (2, 5, 8); (0, 4, 8); (2, 4, 6) ]
  /\ (forall w, checkWinner board = Some w ->
        In (line w) winPatterns /\
        exists m, player w = Str m /\ holds board (line w) m)
  /\ (has_line board <-> exists w, checkWinner board = Some w)
  /\ (checkWinner board = None <-> ~ has_line board).
Proof.
  split; [reflexivity|]. split; [|split].
  - intros w H. now apply checkWinner_loop_some.
  - split.
    + intros H. destruct (checkWinner board) as [w|] eqn:E; [eauto|].
      apply checkWinner_none_iff in E. contradiction.
    + intros [w H]. apply checkWinner_loop_some in H as (HIn & m & _ & Hm).
      exists m, (line w). auto.
  - apply checkWinner_none_iff.
Qed.

(** C2. [checkGameEnd] reports a draw exactly when no winning line exists
    and no cell is [null]; the win check comes first, so a board with a
    complete line is reported as a win of the mark on that line even when it
    is full; a board with a [null] cell and no complete line is not
    terminal. *)
Theorem checkGameEnd_classification (board : Array) :
  (checkGameEnd board = Some Draw <-> ~ has_line board /\ ~ In Null board)
  /\ (has_line board ->
      exists m p, In p winPatterns /\ holds board p m /\
                  checkGameEnd board = Some (Win (Str m)))
  /\ (In Null board -> ~ has_line board -> checkGameEnd board = None).
Proof.
  unfold checkGameEnd. split; [|split].
  - destruct (checkWinner board) as [w|] eqn:E.
    + split; [discriminate|]. intros [H _]. exfalso.
      apply checkWinner_none_iff in H. congruence.
    + apply checkWinner_none_iff in E.
      destruct (every_not_null board) eqn:F.
      * apply every_not_null_spec in F. tauto.
      * split; [discriminate|]. intros [_ H].
        apply every_not_null_spec in H. congruence.
  - intros H. destruct (checkWinner board) as [w|] eqn:E.
    + apply checkWinner_loop_some in E as (HIn & m & Hp & Hm).
      exists m, (line w). rewrite Hp. auto.
    + apply checkWinner_none_iff in E. contradiction.
  - intros HN HL. apply checkWinner_none_iff in HL. rewrite HL.
    destruct (every_not_null board) eqn:F; [|reflexivity].
    apply every_not_null_spec in F. contradiction.
Qed.

End GameFacts.

(* ================================================================== *)
(** ** Properties of the move engine *)
(* ================================================================== *)

Module EngineFacts.
Import Engine JsFacts.

Lemma boards_complete n (b : Board) : length b = n -> In b (boards n).
Proof.
  revert b. induction n as [|n IH]; intros [|c b] H; simpl in *;
    try discriminate; [now left|].
  apply in_flat_map. exists b. split; [apply IH; congruence|].
  destruct c as [[|]|]; simpl; auto.
Qed.

Lemma emptyFrom_nil i (b : Board) : emptyFrom i b = [] <-> ~ In None b.
Proof.
  revert i. induction b as [|[m|] b IH]; intros i; simpl.
  - tauto.
  - rewrite IH. split; [intros H [E|E]; [discriminate|auto]|tauto].
  - split; [discriminate|]. intros H. exfalso. auto.
Qed.

Lemma wins_at_spec b me i :
  wins_at b me i = true <-> winner (place b i me) = Some me.
Proof.
  unfold wins_at. destruct (winner (place b i me)) as [m|].
  - rewrite mark_eqb_eq. split; congruence.
  - split; discriminate.
Qed.

(** *** The fuel of the search is enough *)

Lemma emptyFrom_length i j (b : Board) :
  length (emptyFrom i b) = length (emptyFrom j b).
Proof.
  revert i j. induction b as [|[m|] b IH]; intros i j; simpl; auto.
Qed.

Lemma emptyFrom_in k i (b : Board) :
  In i (emptyFrom k b) -> k <= i /\ nth_error b (i - k) = Some None.
Proof.
  revert k. induction b as [|[m|] b IH]; intros k; simpl.
  - intros [].
  - intros H. apply IH in H as [H1 H2]. split; [lia|].
    replace (i - k) with (S (i - S k)) by lia. exact H2.
  - intros [<-|H].
    + split; [lia|]. now rewrite Nat.sub_diag.
    + apply IH in H as [H1 H2]. split; [lia|].
      replace (i - k) with (S (i - S k)) by lia. exact H2.
Qed.

(** A move on an Empty cell leaves one Empty cell less. *)
Lemma place_empties k j m (b : Board) :
  nth_error b j = Some None ->
  S (length (emptyFrom k (place b j m))) = length (emptyFrom k b).
Proof.
  revert k j. induction b as [|c b IH]; intros k [|j]; simpl;
    try discriminate.
  - intros [= ->]. reflexivity.
  - intros H. destruct c; simpl; [now apply IH|].
    f_equal. now apply IH.
Qed.

Lemma place_emptyCells i m (b : Board) :
  In i (emptyCells b) ->
  S (length (emptyCells (place b i m))) = length (emptyCells b).
Proof.
  intros H. apply emptyFrom_in in H as [_ H]. rewrite Nat.sub_0_r in H.
  now apply place_empties.
Qed.

Lemma children_ext f g maximizing cells :
  (forall i, In i cells ->
             forall alpha beta st, f i alpha beta st = g i alpha beta st) ->
  forall best alpha beta st,
    children f maximizing cells best alpha beta st
    = children g maximizing cells best alpha beta st.
Proof.
  induction cells as [|i rest IH]; intros H best alpha beta st; simpl;
    [reflexivity|].
  rewrite (H i (or_introl eq_refl)).
  destruct (g i alpha beta st) as [v st'].
  destruct maximizing;
    match goal with |- context [if ?c then _ else _] => destruct c end;
    try reflexivity; apply IH; intros; apply H; now right.
Qed.

Lemma search_unfold fuel me b turn depth alpha beta st :
  search fuel me b turn depth alpha beta st =
  match terminalScore me b depth with
  | Some s => (s, visit st)
  | None =>
      match fuel with
      | 0 => (0%Z, visit st)
      | S fuel' =>
          children
            (fun i alpha beta st =>
               search fuel' me (place b i turn) (other turn) (depth + 1)
                      alpha beta st)
            (mark_eqb turn me) (emptyCells b)
            (if mark_eqb turn me then NEG_INF else POS_INF)
            alpha beta (visit st)
      end
  end.
Proof. destruct fuel; reflexivity. Qed.

Lemma terminal_without_empties me b depth :
  emptyCells b = [] -> terminalScore me b depth <> None.
Proof.
  intros E. unfold terminalScore. rewrite E.
  destruct (winner b) as [m|]; [destruct (mark_eqb m me)|]; discriminate.
Qed.

(** With at least as much fuel as Empty cells the search never reaches the
    end of its fuel: any two such amounts give the same result. *)
Lemma search_fuel_irrelevant n :
  forall m me b turn depth alpha beta st,
    length (emptyCells b) <= n -> length (emptyCells b) <= m ->
    search n me b turn depth alpha beta st
    = search m me b turn depth alpha beta st.
Proof.
  induction n as [|n IH]; intros m me b turn depth alpha beta st Hn Hm;
    rewrite (search_unfold _ me b), (search_unfold m me b);
    destruct (terminalScore me b depth) as [s|] eqn:T; try reflexivity.
  - exfalso. apply (terminal_without_empties me b depth); [|exact T].
    destruct (emptyCells b); [reflexivity|simpl in Hn; lia].
  - destruct m as [|m].
    + exfalso. apply (terminal_without_empties me b depth); [|exact T].
      destruct (emptyCells b); [reflexivity|simpl in Hm; lia].
    + apply children_ext. intros i Hi a b' s.
      pose proof (place_emptyCells i turn b Hi) as L.
      apply IH; lia.
Qed.

(** The fuel [computeMove] gives the Hard search is enough: more fuel
    changes nothing in the loop of the root. *)
Lemma rootLoop_fuel_irrelevant n me b cells :
  (forall i, In i cells -> In i (emptyCells b)) ->
  length (emptyCells b) <= n ->
  forall bestMove bestScore st,
    rootLoop n me b cells bestMove bestScore st
    = rootLoop (length (emptyCells b)) me b cells bestMove bestScore st.
Proof.
  intros Hc Hn. induction cells as [|i rest IH]; intros bm bs st; simpl;
    [reflexivity|].
  pose proof (place_emptyCells i me b (Hc i (or_introl eq_refl))) as L.
  rewrite (search_fuel_irrelevant n (length (emptyCells b))) by lia.
  destruct (search _ me (place b i me) _ _ _ _ _) as [v st'].
  destruct (bs <? v)%Z; apply IH; intros; apply Hc; now right.
Qed.

(** The exhaustive check of [takes_win]: all 19683 boards of 9 cells, both
    marks. *)
Lemma takes_win_all :
  forallb (fun b => takes_win b X && takes_win b O) (boards 9) = true.
Proof. vm_compute. reflexivity. Qed.

Lemma takes_win_at b me : length b = 9 -> takes_win b me = true.
Proof.
  intros H. apply boards_complete in H.
  pose proof takes_win_all as A. rewrite forallb_forall in A.
  specialize (A b H). apply andb_true_iff in A. destruct me; tauto.
Qed.

(** C3. On every non-terminal board of 9 cells on which the engine's mark
    can complete a line in one move, the Hard decision is an Empty cell that
    completes a line of that mark; on the board
    [[X,X,null,O,O,null,null,null,null]] with player X it is cell 2. *)
Theorem hard_takes_win_in_one :
  (forall (g : Rng) (b : Board) (me : Mark),
      length b = 9 ->
      terminalScore me b 0 = None ->
      (exists i, In i (emptyCells b) /\ winner (place b i me) = Some me) ->
      exists d, computeMove g b me Hard = inr d /\
                In (move d) (emptyCells b) /\
                winner (place b (move d) me) = Some me)
  /\ (forall g : Rng,
        exists d, computeMove g scenario1 X Hard = inr d /\ move d = 2).
Proof.
  split.
  - intros g b me Hlen Hterm (i & Hi & Hwin).
    pose proof (takes_win_at b me Hlen) as T.
    unfold takes_win in T. rewrite Hterm in T.
    unfold computeMove. rewrite Hlen. simpl.
    destruct (emptyCells b) as [|first rest] eqn:E; [destruct Hi|].
    assert (Hex : existsb (wins_at b me) (first :: rest) = true).
    { apply existsb_exists. exists i. split; [exact Hi|].
      now apply wins_at_spec. }
    rewrite Hex in T. apply andb_true_iff in T as [T1 T2].
    exists (hardDecision me b first). split; [reflexivity|]. split.
    + apply existsb_exists in T1 as (j & Hj & Ej).
      apply Nat.eqb_eq in Ej. now rewrite Ej.
    + now apply wins_at_spec.
  - intros g. eexists. split; [reflexivity|]. vm_compute. reflexivity.
Qed.

(** The general part of C3 at scenario 1. *)
Lemma hard_takes_win_in_one_witness :
  exists d, computeMove 0%N scenario1 X Hard = inr d /\
            In (move d) (emptyCells scenario1) /\
            winner (place scenario1 (move d) X) = Some X.
Proof.
  apply (proj1 hard_takes_win_in_one 0%N scenario1 X).
  - reflexivity.
  - reflexivity.
  - exists 2. split; [simpl; auto|reflexivity].
Defined.

(** *** Every decision is a legal move *)

Lemma rootLoop_move fuel me b cells :
  forall bestMove bestScore st,
    let '(m, _, _) := rootLoop fuel me b cells bestMove bestScore st in
    m = bestMove \/ In m cells.
Proof.
  induction cells as [|i rest IH]; intros bm bs st; simpl; [now left|].
  destruct (search _ _ _ _ _ _ _ _) as [v st'].
  destruct (bs <? v)%Z.
  - specialize (IH i v st').
    destruct (rootLoop _ _ _ _ _ _ _) as [[m ?] ?]. intuition.
  - specialize (IH bm bs st').
    destruct (rootLoop _ _ _ _ _ _ _) as [[m ?] ?]. intuition.
Qed.

Lemma hardDecision_legal me b first :
  In first (emptyCells b) -> In (move (hardDecision me b first)) (emptyCells b).
Proof.
  intros H. unfold hardDecision.
  pose proof (rootLoop_move (length (emptyCells b)) me b (emptyCells b)
                first NEG_INF (mkStats 1 0)) as R.
  destruct (rootLoop _ _ _ _ _ _ _) as [[m v] st]. simpl.
  destruct R as [->|R]; assumption.
Qed.

Lemma easyDecision_legal g b first :
  In first (emptyCells b) -> In (move (easyDecision g b first)) (emptyCells b).
Proof.
  intros H. unfold easyDecision.
  destruct (draw g _) as [k g']. simpl.
  destruct (nth_in_or_default (N.to_nat k) (emptyCells b) first) as [E|E];
    [exact E|now rewrite E].
Qed.

Lemma decision_legal g b me d dec :
  computeMove g b me d = inr dec -> In (move dec) (emptyCells b).
Proof.
  unfold computeMove. destruct (negb _); [discriminate|].
  destruct (emptyCells b) as [|first rest] eqn:E; [discriminate|].
  intros [= <-]. rewrite <- E.
  assert (H : In first (emptyCells b)) by (rewrite E; now left).
  destruct d.
  - now apply easyDecision_legal.
  - unfold mediumDecision. destruct (draw g 100) as [r g'].
    destruct (r <? 30)%N;
      [now apply easyDecision_legal|now apply hardDecision_legal].
  - now apply hardDecision_legal.
Qed.

(** C4. On a board of 9 cells the engine fails with [NoLegalMoves] exactly
    when no cell is Empty: a full board gets that failure and no decision,
    a board with an Empty cell gets a decision (on one of its Empty
    cells). *)
Theorem noLegalMoves_iff_full (g : Rng) (b : Board) (me : Mark)
    (d : Difficulty) :
  length b = 9 ->
  (computeMove g b me d = inl NoLegalMoves <-> ~ In None b)
  /\ (~ In None b -> forall dec, computeMove g b me d <> inr dec)
  /\ (In None b -> exists dec, computeMove g b me d = inr dec
                               /\ In (move dec) (emptyCells b)).
Proof.
  intros Hlen. pose proof (decision_legal g b me d) as L. revert L.
  unfold computeMove. rewrite Hlen. simpl.
  pose proof (emptyFrom_nil 0 b) as F. fold (emptyCells b) in F.
  destruct (emptyCells b) as [|first rest]; intros L.
  - assert (N : ~ In None b) by now apply F.
    repeat split; auto; try discriminate. intros H. contradiction.
  - assert (N : ~ ~ In None b) by (intros H; apply F in H; discriminate).
    repeat split.
    + discriminate.
    + intros H. contradiction.
    + intros H. contradiction.
    + intros _. eexists. split; [reflexivity|]. now apply L.
Qed.

(** C4 on the full board of scenario 3 and on the board of scenario 1. *)
Lemma noLegalMoves_iff_full_witness :
  computeMove 0%N scenario3 X Hard = inl NoLegalMoves
  /\ exists dec, computeMove 0%N scenario1 X Hard = inr dec
                 /\ In (move dec) (emptyCells scenario1).
Proof.
  split.
  - apply (noLegalMoves_iff_full 0%N scenario3 X Hard); [reflexivity|].
    simpl. intuition discriminate.
  - apply (noLegalMoves_iff_full 0%N scenario1 X Hard); [reflexivity|].
    simpl. auto.
Defined.

(** The model on the scenarios of the spec: scenario 2 (O answers the
    corner opening with a move of score 0), scenario 4 (only the centre is
    Empty) and the node count on the empty board. *)
Example engine_scenarios :
  (exists d, computeMove 0%N [Some X; None; None; None; Some O; None; None;
                              None; None] O Hard = inr d
             /\ cell [Some X; None; None; None; Some O; None; None; None;
                      None] (move d) = None
             /\ (0 <= score d)%Z)
  /\ (exists d, computeMove 0%N [Some X; Some O; Some X; Some O; None;
                                 Some O; Some O; Some X; Some X] X Hard
                = inr d /\ move d = 4)
  /\ (exists d, computeMove 0%N (repeat None 9) X Hard = inr d
                /\ (0 < nodes_evaluated d < 362880)%N).
Proof.
  repeat split; eexists; (split; [reflexivity|]); vm_compute;
    repeat split; congruence.
Qed.


(** The generator is no dummy input: the Easy decision on the empty board
    changes with its state. *)
Lemma easy_depends_on_generator :
  computeMove 0%N (repeat None 9) X Easy
  <> computeMove 1%N (repeat None 9) X Easy.
Proof. vm_compute. discriminate. Qed.

(** C6. A terminal board is scored for the player the engine moves for:
    with no ply played, +10 for a win of that player, -10 for a win of the
    opponent, 0 for a draw; [depth] plies below the root the win scores
    [10 - depth] and the loss [-10 + depth], so of two wins the one reached
    in fewer plies scores strictly higher and of two losses the one reached
    in more plies scores strictly higher. *)
Theorem terminal_scoring (me : Mark) :
  (forall b, winner b = Some me -> terminalScore me b 0 = Some 10%Z)
  /\ (forall b, winner b = Some (other me) ->
                terminalScore me b 0 = Some (-10)%Z)
  /\ (forall b depth, winner b = None -> ~ In None b ->
                      terminalScore me b depth = Some 0%Z)
  /\ (forall b1 b2 d1 d2 s1 s2,
        winner b1 = Some me -> winner b2 = Some me ->
        terminalScore me b1 d1 = Some s1 ->
        terminalScore me b2 d2 = Some s2 ->
        (d1 < d2)%Z -> (s2 < s1)%Z)
  /\ (forall b1 b2 d1 d2 s1 s2,
        winner b1 = Some (other me) -> winner b2 = Some (other me) ->
        terminalScore me b1 d1 = Some s1 ->
        terminalScore me b2 d2 = Some s2 ->
        (d1 < d2)%Z -> (s1 < s2)%Z).
Proof.
  assert (Hme : mark_eqb me me = true) by now apply mark_eqb_eq.
  assert (Hop : mark_eqb (other me) me = false) by now destruct me.
  unfold terminalScore. repeat split.
  - intros b ->. now rewrite Hme.
  - intros b ->. now rewrite Hop.
  - intros b depth -> H. apply (emptyFrom_nil 0) in H.
    unfold emptyCells. now rewrite H.
  - intros b1 b2 d1 d2 s1 s2 -> ->. rewrite Hme. intros H1 H2 Hd.
    assert (s1 = 10 - d1)%Z by congruence.
    assert (s2 = 10 - d2)%Z by congruence. lia.
  - intros b1 b2 d1 d2 s1 s2 -> ->. rewrite Hop. intros H1 H2 Hd.
    assert (s1 = - 10 + d1)%Z by congruence.
    assert (s2 = - 10 + d2)%Z by congruence. lia.
Qed.

(** C6 on boards won by X: seen by X, a win at ply 1 scores 9 and beats a
    win at ply 3; seen by O, the loss at ply 3 beats the loss at ply 1. *)
Lemma terminal_scoring_witness :
  (7 < 9)%Z /\ (-9 < -7)%Z.
Proof.
  pose (won := [Some X; Some X; Some X; Some O; Some O; None; None; None;
                None]).
  split.
  - apply (proj1 (proj2 (proj2 (proj2 (terminal_scoring X))))
             won won 1%Z 3%Z 9%Z 7%Z); try reflexivity.
  - apply (proj2 (proj2 (proj2 (proj2 (terminal_scoring O))))
             won won 1%Z 3%Z (-9)%Z (-7)%Z); try reflexivity.
Defined.

End EngineFacts.

(* ================================================================== *)
(** ** Properties of the statistics *)
(* ================================================================== *)

Module DbFacts.
Import Db.

(** The guarded expression shared by the function and the view never
    divides by zero and has the closed form [win_rate]. *)
Lemma guarded_rate (total won : sql_int) :
  match sql_eq_int total 0 with
  | Some true => Value (Some 0%Q)
  | _ => rate_expr won total
  end = Value (win_rate total won).
Proof.
  destruct total as [[|t|t]|], won as [w|]; reflexivity.
Qed.

Lemma calculate_win_rate_closed users user_uuid :
  calculate_win_rate users user_uuid =
  Value match select_user users user_uuid with
        | Some u => win_rate (total_matches u) (matches_won u)
        | None => None
        end.
Proof.
  unfold calculate_win_rate.
  destruct (select_user users user_uuid) as [u|]; apply guarded_rate.
Qed.

Lemma user_statistics_closed users :
  user_statistics users =
  Value (map (fun u => mkRow (id u) (username u) (total_matches u)
                             (matches_won u)
                             (win_rate (total_matches u) (matches_won u)))
             users).
Proof.
  induction users as [|u rest IH]; simpl; [reflexivity|].
  unfold view_row. rewrite guarded_rate, IH. reflexivity.
Qed.

(** C10. For every user row, [calculate_win_rate] returns 0 when
    [total_matches] is 0 and [ROUND(matches_won / total_matches * 100, 1)]
    otherwise; on no input does it raise [division_by_zero]; and the column
    [win_rate_percentage] of [user_statistics] is computed under the same
    guard, giving the same value on every row without error. *)
Theorem calculate_win_rate_division_safe :
  (forall users user_uuid u,
      select_user users user_uuid = Some u ->
      total_matches u = Some 0%Z ->
      calculate_win_rate users user_uuid = Value (Some 0%Q))
  /\ (forall users user_uuid u t w,
        select_user users user_uuid = Some u ->
        total_matches u = Some t -> t <> 0%Z -> matches_won u = Some w ->
        calculate_win_rate users user_uuid =
        Value (Some (round1 (inject_Z w / inject_Z t * 100)%Q)))
  /\ (forall users user_uuid,
        calculate_win_rate users user_uuid <> Raise_division_by_zero)
  /\ (forall users,
        exists rows,
          user_statistics users = Value rows /\
          map win_rate_percentage rows =
          map (fun u => win_rate (total_matches u) (matches_won u)) users)
  /\ (forall users user_uuid u,
        select_user users user_uuid = Some u ->
        calculate_win_rate users user_uuid =
        Value (win_rate (total_matches u) (matches_won u))).
Proof.
  repeat split.
  - intros users user_uuid u Hu Ht.
    rewrite calculate_win_rate_closed, Hu, Ht. reflexivity.
  - intros users user_uuid u t w Hu Ht Hnz Hw.
    rewrite calculate_win_rate_closed, Hu, Ht, Hw.
    destruct t; [contradiction| |]; reflexivity.
  - intros users user_uuid. rewrite calculate_win_rate_closed. discriminate.
  - intros users. eexists. split; [apply user_statistics_closed|].
    rewrite map_map. reflexivity.
  - intros users user_uuid u Hu.
    rewrite calculate_win_rate_closed, Hu. reflexivity.
Qed.

(** C10 on the sample row (no match played) and on a user with 1 win in 3
    matches (33.3). *)
Lemma calculate_win_rate_division_safe_witness :
  calculate_win_rate [sample_user] 1 = Value (Some 0%Q)
  /\ calculate_win_rate
       [sample_user;
        mkUser 2 "ada" "ada@example.org" (Some 3%Z) (Some 1%Z) (Some 2%Z)
               (Some 0%Z)] 2
     = Value (Some (round1 (inject_Z 1 / inject_Z 3 * 100)%Q)).
Proof.
  split.
  - apply (proj1 calculate_win_rate_division_safe [sample_user] 1
             sample_user); reflexivity.
  - apply (proj1 (proj2 calculate_win_rate_division_safe) _ 2
             (mkUser 2 "ada" "ada@example.org" (Some 3%Z) (Some 1%Z)
                     (Some 2%Z) (Some 0%Z)) 3%Z 1%Z);
      try reflexivity. discriminate.
Defined.

(** [round1] on a few values: ties go away from zero. *)
Example round1_examples :
  round1 ((1 # 3) * 100)%Q = (333 # 10)%Q
  /\ round1 ((1 # 2000) * 100)%Q = (1 # 10)%Q
  /\ round1 ((2 # 3) * 100)%Q = (667 # 10)%Q
  /\ round1 (- (1 # 2000) * 100)%Q = (- 1 # 10)%Q.
Proof. repeat split; reflexivity. Qed.

End DbFacts.

(* ================================================================== *)
(** ** Properties of the click handler and of the match flow *)
(* ================================================================== *)

Module FlowFacts.
Import Game Flow JsFacts.

(** C8. A click on a cell is rejected without any change when the game is
    not active, or the cell of that index does not hold [null], or it is the
    AI's turn: [handleCellClick] hands back the whole state (board, current
    player, scores, round, pending callbacks and modals) as it was. *)
Theorem handleCellClick_rejected (index : nat) (w : World) :
  gameActive (state w) = false
  \/ get (board (state w)) index <> Null
  \/ isAITurn (state w) = true ->
  handleCellClick index w = w.
Proof.
  unfold handleCellClick. intros [H|[H|H]].
  - now rewrite H.
  - destruct (gameActive (state w)); simpl; [|reflexivity].
    destruct (strict_eq (get (board (state w)) index) Null) eqn:E;
      simpl; [|reflexivity].
    apply strict_eq_eq in E. contradiction.
  - destruct (gameActive (state w)); simpl; [|reflexivity].
    destruct (strict_eq (get (board (state w)) index) Null);
      simpl; [|reflexivity].
    now rewrite H.
Qed.

(** C8 on a running human-vs-human round: a second click on cell 4 after X
    took it leaves the state as it is. *)
Lemma handleCellClick_rejected_witness :
  let w := handleCellClick 4 (match_started human_vs_human None 1) in
  get (board (state w)) 4 = Str X /\ handleCellClick 4 w = w.
Proof.
  split; [reflexivity|].
  apply handleCellClick_rejected. right. left. discriminate.
Defined.

(** *** Matches played by hand stay within best-of-3 *)

Ltac bounds := unfold bounded in *; simpl in *; lia.

Lemma handleRoundEnd_phase result w :
  roundModal w = false -> matchModal w = false -> bounded (state w) 3 1 ->
  pending w = [] ->
  Phase (handleRoundEnd Stop result w).
Proof.
  intros Hr Hm Hb Hp. apply (RoundOver _ result); unfold handleRoundEnd;
    destruct result as [winner|]; try destruct (strict_eq winner (Str X));
    simpl; auto; try bounds; rewrite Hp; auto.
Qed.

Lemma makeMove_phase index player w :
  gameActive (state w) = true -> roundModal w = false ->
  matchModal w = false -> bounded (state w) 3 1 -> pending w = [] ->
  Phase (makeMove Stop index player w).
Proof.
  intros Ha Hr Hm Hb Hp. unfold makeMove.
  destruct (cellCount <=? index).
  - apply Playing; simpl; auto.
  - destruct (checkGameEnd _) as [result|].
    + apply handleRoundEnd_phase; simpl; auto.
    + destruct (_ && _); simpl.
      * apply Playing; simpl; auto. right. split; auto. rewrite Hp. auto.
      * apply Playing; simpl; auto.
Qed.

Ltac break_match :=
  match goal with
  | |- context [match ?x with _ => _ end] => destruct x eqn:?
  end.

Lemma makeMove_mode k index player w :
  currentMode (state (makeMove k index player w)) = currentMode (state w).
Proof.
  unfold makeMove, handleRoundEnd, makeAIMove, resume.
  repeat (break_match; simpl); reflexivity.
Qed.

Lemma startNewRound_phase w :
  mode_is (currentMode (state w)) ai_vs_ai = false ->
  roundModal w = false -> matchModal w = false -> bounded (state w) 3 1 ->
  pending w = [] ->
  Phase (startNewRound w).
Proof.
  intros Hmode Hr Hm Hb Hp. unfold startNewRound. simpl. rewrite Hmode.
  apply Playing; simpl; auto.
Qed.

Lemma startNewRound_mode w :
  currentMode (state (startNewRound w)) = currentMode (state w).
Proof. unfold startNewRound. simpl. break_match; reflexivity. Qed.

Lemma step_mode e w w2 :
  step e w = Some w2 -> currentMode (state w2) = currentMode (state w).
Proof.
  destruct e as [index| | |n r]; simpl.
  - intros [= <-]. unfold handleCellClick.
    repeat (break_match; simpl); try reflexivity. apply makeMove_mode.
  - destruct (roundModal w); [|discriminate]. intros [= <-].
    unfold startNextRound. now rewrite startNewRound_mode.
  - destruct (matchModal w); [|discriminate]. now intros [= <-].
  - destruct (nth_error (pending w) n) as [t|]; [|discriminate].
    intros [= <-].
    destruct t; simpl; unfold playAIvsAI, showRoundResultModal, resume,
      startNewMatch_ok;
      rewrite ?makeMove_mode, ?startNewRound_mode;
      repeat (break_match; simpl);
      rewrite ?makeMove_mode, ?startNewRound_mode; reflexivity.
Qed.

Lemma step_phase e w w2 :
  human_session w -> step e w = Some w2 -> Phase w2.
Proof.
  intros [Hmode P] Hs.
  destruct e as [index| | |n r]; simpl in Hs.
  - (* click *)
    injection Hs as <-. unfold handleCellClick.
    destruct (gameActive (state w)) eqn:Ha; simpl; [|exact P].
    destruct (strict_eq _ Null); simpl; [|exact P].
    destruct (isAITurn (state w)) eqn:Hai; simpl; [exact P|].
    destruct P as [_ Hr Hm Hb Hp | ? Ha2 | Ha2 | Ha2]; try congruence.
    apply makeMove_phase; auto.
    destruct Hp as [Hp|[Hp _]]; [exact Hp|congruence].
  - (* next round *)
    destruct (roundModal w) eqn:Hr; [|discriminate]. injection Hs as <-.
    destruct P as [? Hr2 | ? ? Hr2 | Ha _ Hm Hb Hp | ? Hr2]; try congruence.
    unfold startNextRound. apply startNewRound_phase; simpl; auto.
    bounds.
  - (* play again *)
    destruct (matchModal w) eqn:Hm; [|discriminate]. injection Hs as <-.
    destruct P as [? ? Hm2 | ? ? ? Hm2 | ? ? Hm2 | Ha Hr Hb Hp];
      try congruence.
    destruct Hp as [[Hm2 _]|[_ Hp]]; [congruence|].
    apply MatchOver; simpl; auto. left. split; auto. rewrite Hp. auto.
  - (* a pending callback *)
    destruct (nth_error (pending w) n) as [t|] eqn:Ht; [|discriminate].
    injection Hs as <-.
    destruct P as [Ha Hr Hm Hb Hp | result Ha Hr Hm Hb Hp
                  | Ha Hr Hm Hb Hp | Ha Hr Hb Hp].
    + destruct Hp as [Hp|[Hai [Hp|[move Hp]]]]; rewrite Hp in Ht;
        destruct n as [|[|n]]; simpl in Ht; try discriminate;
        injection Ht as <-; rewrite Hp; simpl.
      * destruct r; simpl; apply Playing; simpl; auto.
        right. split; eauto.
      * apply makeMove_phase; simpl; auto.
    + destruct Hp as [Hp|Hp]; rewrite Hp in Ht;
        destruct n as [|[|n]]; simpl in Ht; try discriminate;
        injection Ht as <-; rewrite Hp; simpl.
      * apply (RoundOver _ result); simpl; auto.
      * unfold showRoundResultModal. simpl.
        destruct (_ || _) eqn:E; [|destruct (_ =? 3)%Z eqn:E3].
        -- apply MatchOver; simpl; auto.
        -- apply MatchOver; simpl; auto.
        -- apply orb_false_iff in E as [E1 E2].
           apply RoundShown; simpl; auto. bounds.
    + rewrite Hp in Ht. destruct n; discriminate.
    + destruct Hp as [[Hm [Hp|[Hp|[Hp|Hp]]]]|[Hm Hp]]; rewrite Hp in Ht;
        destruct n as [|[|n]]; simpl in Ht; try discriminate;
        injection Ht as <-; rewrite Hp; simpl.
      * apply MatchOver; simpl; auto.
      * apply MatchOver; simpl; auto.
      * destruct r; simpl; [|apply MatchOver; simpl; auto 10..].
        unfold startNewMatch_ok. apply startNewRound_phase; simpl; auto.
        bounds.
Qed.

Lemma match_started_session mode difficulty match_id :
  mode <> ai_vs_ai ->
  human_session (match_started mode difficulty match_id).
Proof.
  intros H.
  assert (E : match_started mode difficulty match_id
              = mkWorld (mkState (Some 1) (Some mode) difficulty
                                 (Some match_id) 1%Z 0%Z 0%Z (filled_null 9)
                                 X true false)
                        false false []).
  { destruct mode; try congruence; reflexivity. }
  rewrite E. split.
  - destruct mode; simpl; congruence.
  - apply Playing; simpl; auto. unfold bounded. simpl. lia.
Qed.

Lemma run_session trace :
  forall w w2, human_session w -> run trace w = Some w2 -> human_session w2.
Proof.
  induction trace as [|e rest IH]; simpl; intros w w2 H.
  - now intros [= <-].
  - destruct (step e w) as [w1|] eqn:E; [|discriminate].
    apply (IH w1). split.
    + rewrite (step_mode e w w1 E). apply H.
    + eapply step_phase; eauto.
Qed.

Lemma phase_best_of_3 w : Phase w -> best_of_3 (state w).
Proof. intros [ ]; unfold best_of_3, bounded in *; lia. Qed.

(** In a session started in [human_vs_human] or [human_vs_ai] mode, every
    state reached by clicks, modal buttons and pending callbacks keeps the
    round between 1 and 3 and both scores between 0 and 2. *)
Theorem human_sessions_best_of_3 mode difficulty match_id trace w :
  mode <> ai_vs_ai ->
  run trace (match_started mode difficulty match_id) = Some w ->
  best_of_3 (state w).
Proof.
  intros Hm Hr. apply phase_best_of_3.
  eapply run_session; [|exact Hr]. now apply match_started_session.
Qed.

(** The invariant on a match X wins 2 to 0 by hand. *)
Lemma human_sessions_best_of_3_witness :
  run human_trace (match_started human_vs_human None 1) = Some human_outcome
  /\ best_of_3 (state human_outcome).
Proof.
  assert (E : run human_trace (match_started human_vs_human None 1)
              = Some human_outcome) by (vm_compute; reflexivity).
  split; [exact E|].
  apply (human_sessions_best_of_3 human_vs_human None 1 human_trace
           human_outcome); [discriminate|exact E].
Defined.

(** C9 fails on [race_trace]: in an AI-vs-AI match the click that ends
    round 2 and the answer of the request that was out both reach
    [handleRoundEnd], which counts the round twice; the score of player 1 is
    3 in round 2, outside the bounds of a best-of-3 match.  The test
    [player1Score === 2] of [showRoundResultModal] then fails, the round
    modal is shown and round 3 is started with the score at 3. *)
Theorem race_breaks_best_of_3 :
  run race_trace (match_started ai_vs_ai None 1) = Some race_outcome
  /\ currentRound (state race_outcome) = 2%Z
  /\ player1Score (state race_outcome) = 3%Z
  /\ ~ best_of_3 (state race_outcome)
  /\ run (race_trace ++ race_goes_on) (match_started ai_vs_ai None 1)
     = Some race_next_round
  /\ gameActive (state race_next_round) = true
  /\ player1Score (state race_next_round) = 3%Z.
Proof.
  split; [vm_compute; reflexivity|]. split; [reflexivity|].
  split; [reflexivity|].
  split; [unfold best_of_3, race_outcome; simpl; lia|].
  split; [vm_compute; reflexivity|]. split; reflexivity.
Qed.

End FlowFacts.

(* ================================================================== *)
(** ** Properties of moves, rounds and matches *)
(* ================================================================== *)

Module PlayFacts.
Import Game Flow Play JsFacts GameFacts FlowFacts.

(** *** Array reads after a write *)

Lemma get_set_same arr i v : get (set arr i v) i = v.
Proof.
  unfold get. revert arr.
  induction i as [|i IH]; intros [|c arr]; simpl; auto.
Qed.

Lemma get_set_other arr i j v : i <> j -> get (set arr i v) j = get arr j.
Proof.
  unfold get. revert arr j.
  induction i as [|i IH]; intros [|c arr] [|j] H; simpl; auto;
    try congruence.
  - now destruct j.
  - rewrite IH by congruence. destruct j; reflexivity.
Qed.

Lemma length_set arr i v : length (set arr i v) = Nat.max (length arr) (S i).
Proof.
  revert arr. induction i as [|i IH]; intros [|c arr]; simpl;
    rewrite ?IH; simpl; lia.
Qed.

Lemma get_null_in_range arr i : get arr i = Null -> i < length arr.
Proof.
  unfold get. intros H. destruct (Nat.lt_ge_cases i (length arr)) as [L|L];
    [exact L|]. rewrite nth_overflow in H by exact L. discriminate.
Qed.

(** *** What a move writes *)

Lemma makeMove_board k index player w :
  board (state (makeMove k index player w))
  = set (board (state w)) index (Str player).
Proof.
  unfold makeMove, handleRoundEnd, makeAIMove, resume.
  repeat (break_match; simpl); reflexivity.
Qed.

Lemma makeMove_round k index player w :
  currentRound (state (makeMove k index player w)) = currentRound (state w).
Proof.
  unfold makeMove, handleRoundEnd, makeAIMove, resume.
  repeat (break_match; simpl); reflexivity.
Qed.

(** [makeMove(index, player)] puts the mark on the cell without looking at
    what the cell holds or whether the board has such a cell: afterwards the
    cell reads as the mark, every other index reads as before, and the round
    number is the same. *)
Theorem makeMove_writes_one_cell k index player w :
  get (board (state (makeMove k index player w))) index = Str player
  /\ (forall j, j <> index ->
        get (board (state (makeMove k index player w))) j
        = get (board (state w)) j)
  /\ length (board (state (makeMove k index player w)))
     = Nat.max (length (board (state w))) (S index)
  /\ currentRound (state (makeMove k index player w))
     = currentRound (state w).
Proof.
  rewrite makeMove_board, makeMove_round.
  repeat split; auto using get_set_same, length_set.
  intros j H. apply get_set_other. congruence.
Qed.

(** A click never overwrites: whatever the state, after [handleCellClick] a
    cell other than the clicked one, or one that did not hold [null], reads as
    before, and the board has as many cells as before. *)
Theorem click_never_overwrites index w j :
  j <> index \/ get (board (state w)) j <> Null ->
  get (board (state (handleCellClick index w))) j = get (board (state w)) j
  /\ length (board (state (handleCellClick index w)))
     = length (board (state w)).
Proof.
  intros H. unfold handleCellClick.
  destruct (negb (gameActive (state w))); [auto|].
  destruct (strict_eq (get (board (state w)) index) Null) eqn:E; simpl;
    [|auto].
  destruct (isAITurn (state w)); [auto|].
  apply strict_eq_eq in E. rewrite makeMove_board. split.
  - apply get_set_other. destruct H as [H|H]; congruence.
  - rewrite length_set. apply get_null_in_range in E. lia.
Qed.

Lemma click_never_overwrites_witness :
  let w := handleCellClick 4 (match_started human_vs_human None 1) in
  get (board (state (handleCellClick 4 w))) 4 = Str X
  /\ length (board (state (handleCellClick 4 w))) = 9.
Proof.
  apply (click_never_overwrites 4
           (handleCellClick 4 (match_started human_vs_human None 1)) 4).
  right. discriminate.
Defined.

(** *** What a move that completes a line scores *)

Lemma holds_set_other board index v p m :
  (let '(a, b, c) := p in a <> index /\ b <> index /\ c <> index) ->
  holds (set board index v) p m -> holds board p m.
Proof.
  destruct p as [[a b] c]. unfold holds. intros (Ha & Hb & Hc).
  rewrite !get_set_other by congruence. auto.
Qed.

Lemma holds_set_through board index player p m :
  holds (set board index (Str player)) p m ->
  m = player \/ holds board p m.
Proof.
  destruct p as [[a b] c]. intros H.
  destruct (Nat.eq_dec a index) as [->|Ha].
  { left. destruct H as [H _]. rewrite get_set_same in H. congruence. }
  destruct (Nat.eq_dec b index) as [->|Hb].
  { left. destruct H as (_ & H & _). rewrite get_set_same in H. congruence. }
  destruct (Nat.eq_dec c index) as [->|Hc].
  { left. destruct H as (_ & _ & H). rewrite get_set_same in H. congruence. }
  right. now apply (holds_set_other board index (Str player) (a, b, c)).
Qed.

(** On a board without a line, the line a move completes is the mover's. *)
Lemma checkGameEnd_after_move board index player :
  ~ has_line board -> has_line (set board index (Str player)) ->
  checkGameEnd (set board index (Str player)) = Some (Win (Str player)).
Proof.
  intros Hno Hyes. unfold checkGameEnd.
  destruct (checkWinner _) as [w|] eqn:E.
  - apply checkWinner_loop_some in E as (HIn & m & Hp & Hm).
    apply holds_set_through in Hm as [->|Hm]; [now rewrite Hp|].
    exfalso. apply Hno. exists m, (line w). auto.
  - apply checkWinner_none_iff in E. contradiction.
Qed.

(** A move on one of the 9 cells that completes a line on a board that had
    none ends the round for the mover: the game is no longer active, the
    mover's side (X is player 1, O is player 2) gains one point, the other
    score and the turn stay, and the round is handed to [saveRound]. *)
Theorem winning_move_scores k index player w :
  index < 9 ->
  ~ has_line (board (state w)) ->
  has_line (set (board (state w)) index (Str player)) ->
  let w' := makeMove k index player w in
  gameActive (state w') = false
  /\ player1Score (state w')
     = (player1Score (state w) + if mark_eqb player X then 1 else 0)%Z
  /\ player2Score (state w')
     = (player2Score (state w) + if mark_eqb player O then 1 else 0)%Z
  /\ currentPlayer (state w') = currentPlayer (state w)
  /\ pending w' = pending w ++ [AwaitSaveRound (Win (Str player)) k].
Proof.
  intros Hi Hno Hyes.
  assert (E : (cellCount <=? index) = false) by (apply Nat.leb_gt; exact Hi).
  unfold makeMove. rewrite E. simpl.
  rewrite (checkGameEnd_after_move _ _ _ Hno Hyes).
  unfold handleRoundEnd.
  destruct player; simpl; repeat split; try reflexivity; lia.
Qed.

Lemma winning_move_scores_witness :
  let w := mkWorld (mkState (Some 1) (Some human_vs_human) None (Some 1)
                            1%Z 0%Z 0%Z
                            [Str X; Str X; Null; Str O; Str O; Null; Null;
                             Null; Null] X true false) false false [] in
  let w' := makeMove Stop 2 X w in
  gameActive (state w') = false
  /\ player1Score (state w') = 1%Z
  /\ player2Score (state w') = 0%Z
  /\ currentPlayer (state w') = X
  /\ pending w' = [AwaitSaveRound (Win (Str X)) Stop].
Proof.
  apply (winning_move_scores Stop 2 X
           (mkWorld (mkState (Some 1) (Some human_vs_human) None (Some 1)
                             1%Z 0%Z 0%Z
                             [Str X; Str X; Null; Str O; Str O; Null; Null;
                              Null; Null] X true false) false false [])).
  - lia.
  - apply checkWinner_none_iff. reflexivity.
  - exists X, (0, 1, 2). simpl. auto.
Defined.

(** *** Rounds played by hand: the order of the marks *)

Lemma count_mark_cons m c b :
  count_mark m (c :: b)
  = (if strict_eq (Str m) c then 1 else 0) + count_mark m b.
Proof.
  unfold count_mark. cbn [filter].
  destruct (strict_eq (Str m) c); reflexivity.
Qed.

Lemma count_mark_set m p b i :
  get b i = Null ->
  count_mark m (set b i (Str p))
  = count_mark m b + (if mark_eqb m p then 1 else 0).
Proof.
  unfold get. revert b.
  induction i as [|i IH]; intros [|c b]; cbn [set nth]; try discriminate;
    rewrite !count_mark_cons.
  - intros ->. simpl. lia.
  - intros H. rewrite IH by exact H. lia.
Qed.

Lemma set_keeps_length b i v : i < length b -> length (set b i v) = length b.
Proof. intros H. rewrite length_set. lia. Qed.

Lemma set_no_hole b i p :
  get b i = Null -> ~ In Undefined b -> ~ In Undefined (set b i (Str p)).
Proof.
  unfold get. revert b.
  induction i as [|i IH]; intros [|c b]; simpl; try discriminate.
  - intros -> H [E|E]; [discriminate|]. apply H. now right.
  - intros Hn H [E|E]; [apply H; now left|].
    apply (IH b Hn); [|exact E]. intros F. apply H. now right.
Qed.

Lemma checkGameEnd_win_named b v :
  checkGameEnd b = Some (Win v) -> exists m, v = Str m.
Proof.
  unfold checkGameEnd. destruct (checkWinner b) as [w|] eqn:E.
  - intros [= <-]. apply checkWinner_loop_some in E as (_ & m & Hp & _).
    eauto.
  - destruct (every_not_null b); discriminate.
Qed.

(** [turn_order] reads the board, the player to move and [gameActive]. *)
Lemma turn_order_ext g g2 :
  board g2 = board g -> currentPlayer g2 = currentPlayer g ->
  gameActive g2 = gameActive g -> turn_order g -> turn_order g2.
Proof. unfold turn_order. intros -> -> ->. auto. Qed.

Lemma turn_order_empty g :
  board g = filled_null 9 -> currentPlayer g = X -> turn_order g.
Proof.
  unfold turn_order. intros -> ->. unfold count_mark. simpl.
  intuition discriminate.
Qed.

(** The turn order after a mark of the player to move is put on a [null]
    cell: the round goes on with the other player, or is over. *)
Lemma turn_order_after g g2 i :
  turn_order g -> gameActive g = true -> get (board g) i = Null ->
  board g2 = set (board g) i (Str (currentPlayer g)) ->
  (gameActive g2 = true -> currentPlayer g2 = other (currentPlayer g)) ->
  turn_order g2.
Proof.
  intros (L & H & _ & T) Ha Hn Hb Hc. specialize (T Ha).
  pose proof (get_null_in_range _ _ Hn) as R.
  unfold turn_order. rewrite Hb.
  rewrite set_keeps_length by exact R.
  rewrite !count_mark_set by exact Hn.
  split; [exact L|]. split; [now apply set_no_hole|].
  destruct T as [[E1 E]|[E1 E]]; rewrite E1 in *; simpl; rewrite E.
  - split; [right; lia|]. intros A. right. split; [auto|lia].
  - split; [left; lia|]. intros A. left. split; [auto|lia].
Qed.

(** What [handleRoundEnd] leaves of the state. *)
Lemma handleRoundEnd_state k result w :
  board (state (handleRoundEnd k result w)) = board (state w)
  /\ currentPlayer (state (handleRoundEnd k result w))
     = currentPlayer (state w)
  /\ gameActive (state (handleRoundEnd k result w)) = false
  /\ isAITurn (state (handleRoundEnd k result w)) = isAITurn (state w)
  /\ pending (handleRoundEnd k result w)
     = pending w ++ [AwaitSaveRound result k].
Proof.
  unfold handleRoundEnd.
  destruct result as [v|]; [destruct (strict_eq v (Str X))|]; simpl; auto.
Qed.

(** A move by hand on one of the 9 cells, in [human_vs_human] mode: either
    the round is over and saved, or the turn passes. *)
Lemma makeMove_by_hand index player w :
  currentMode (state w) = Some human_vs_human -> index < 9 ->
  isAITurn (state (makeMove Stop index player w)) = isAITurn (state w)
  /\ ((exists result,
         checkGameEnd (set (board (state w)) index (Str player))
         = Some result
         /\ gameActive (state (makeMove Stop index player w)) = false
         /\ pending (makeMove Stop index player w)
            = pending w ++ [AwaitSaveRound result Stop])
      \/ (gameActive (state (makeMove Stop index player w))
          = gameActive (state w)
          /\ currentPlayer (state (makeMove Stop index player w))
             = other player
          /\ pending (makeMove Stop index player w) = pending w)).
Proof.
  intros Hmode Hi.
  assert (C : (cellCount <=? index) = false) by (apply Nat.leb_gt; exact Hi).
  unfold makeMove. rewrite C. simpl.
  destruct (checkGameEnd (set (board (state w)) index (Str player)))
    as [result|] eqn:G.
  - unfold handleRoundEnd.
    destruct result as [v|]; [destruct (strict_eq v (Str X))|]; simpl;
      (split; [reflexivity|]); left; eexists; repeat split; reflexivity.
  - rewrite Hmode. simpl. split; [reflexivity|]. right. auto.
Qed.

Lemma step_by_hand e w w2 :
  by_hand w -> step e w = Some w2 -> by_hand w2.
Proof.
  intros (S & Hmode & Hai & T & N) Hs.
  assert (S2 : human_session w2).
  { split; [rewrite (step_mode e w w2 Hs); apply S|].
    now apply (step_phase e w w2). }
  split; [exact S2|]. split; [now rewrite (step_mode e w w2 Hs)|].
  destruct S as [_ P].
  destruct e as [index| | |n rp]; simpl in Hs.
  - (* click *)
    injection Hs as <-. unfold handleCellClick.
    destruct (gameActive (state w)) eqn:Ha; simpl; [|auto].
    destruct (strict_eq (get (board (state w)) index) Null) eqn:E; simpl;
      [|auto].
    rewrite Hai. apply strict_eq_eq in E.
    destruct P as [_ _ _ _ Hp| ? Ha2 | Ha2 | Ha2]; try congruence.
    destruct Hp as [Hp|[Hp _]]; [|congruence].
    pose proof (get_null_in_range _ _ E) as R.
    assert (L : length (board (state w)) = 9) by apply T.
    assert (I : index < 9) by lia.
    destruct (makeMove_by_hand index (currentPlayer (state w)) w Hmode I)
      as (Hai2 & [(result & G & Ha2 & Hp2)|(Ha2 & Hc2 & Hp2)]).
    + split; [congruence|]. split.
      * apply (turn_order_after (state w) _ index T Ha E).
        -- apply makeMove_board.
        -- congruence.
      * intros v k. rewrite Hp2, Hp. intros [H|[]].
        injection H as H1 H2. rewrite H1 in G.
        now apply (checkGameEnd_win_named _ _ G).
    + split; [congruence|]. split.
      * apply (turn_order_after (state w) _ index T Ha E).
        -- apply makeMove_board.
        -- auto.
      * intros v k. rewrite Hp2. apply N.
  - (* next round *)
    destruct (roundModal w) eqn:Hr; [|discriminate]. injection Hs as <-.
    destruct P as [? Hr2 | ? ? Hr2 | _ _ _ _ Hp | ? Hr2]; try congruence.
    unfold startNextRound, startNewRound.
    cbn [upd state currentMode set_roundModal set_currentRound set_board
         set_currentPlayer set_gameActive set_isAITurn].
    rewrite Hmode. cbn [mode_is].
    split; [reflexivity|]. split; [now apply turn_order_empty|].
    intros v k. cbn [pending set_roundModal upd]. rewrite Hp. intros [].
  - (* play again *)
    destruct (matchModal w) eqn:Hm; [|discriminate]. injection Hs as <-.
    unfold handlePlayAgain. split; [exact Hai|]. split; [exact T|].
    intros v k H. cbn [pending defer set_matchModal] in H.
    apply in_app_or in H as [H|[H|[]]]; [now apply (N v k)|discriminate].
  - (* a pending callback *)
    destruct (nth_error (pending w) n) as [t|] eqn:Ht; [|discriminate].
    injection Hs as <-.
    destruct P as [Ha Hr Hm Hb Hp | result Ha Hr Hm Hb Hp
                  | Ha Hr Hm Hb Hp | Ha Hr Hb Hp].
    + destruct Hp as [Hp|[Hp _]]; [|congruence].
      rewrite Hp in Ht. destruct n; discriminate.
    + destruct Hp as [Hp|Hp]; rewrite Hp in Ht;
        destruct n as [|[|n]]; simpl in Ht; try discriminate;
        injection Ht as <-; rewrite Hp; cbn [remove_nth runTask resume].
      * split; [exact Hai|]. split; [exact T|]. intros v k [H|[]].
        discriminate.
      * unfold showRoundResultModal.
        destruct (_ || _); [|destruct (_ =? 3)%Z];
          (split; [exact Hai|]); (split; [exact T|]);
          intros v k H; try destruct H as [H|[]]; try discriminate;
          destruct H.
    + rewrite Hp in Ht. destruct n; discriminate.
    + destruct Hp as [[Hm [Hp|[Hp|[Hp|Hp]]]]|[Hm Hp]]; rewrite Hp in Ht;
        destruct n as [|[|n]]; simpl in Ht; try discriminate;
        injection Ht as <-; rewrite Hp; cbn [remove_nth runTask].
      * split; [exact Hai|]. split; [exact T|]. intros v k [H|[]].
        discriminate.
      * split; [exact Hai|]. split; [exact T|]. intros v k [].
      * destruct rp as [match_id| |];
          [|split; [exact Hai|]; (split; [exact T|]); intros v k []..].
        unfold startNewMatch_ok, startNewRound.
        cbn [upd state currentMode set_matchId set_currentRound
             set_player1Score set_player2Score set_board set_currentPlayer
             set_gameActive set_isAITurn].
        rewrite Hmode. cbn [mode_is].
        split; [reflexivity|]. split; [now apply turn_order_empty|].
        intros v k [].
Qed.

Lemma match_started_by_hand difficulty match_id :
  by_hand (match_started human_vs_human difficulty match_id).
Proof.
  split; [apply match_started_session; discriminate|].
  split; [reflexivity|]. split; [reflexivity|]. split.
  - now apply turn_order_empty.
  - intros v k [].
Qed.

Lemma run_by_hand trace :
  forall w w2, by_hand w -> run trace w = Some w2 -> by_hand w2.
Proof.
  induction trace as [|e rest IH]; simpl; intros w w2 H.
  - now intros [= <-].
  - destruct (step e w) as [w1|] eqn:E; [|discriminate].
    apply (IH w1). now apply (step_by_hand e w w1).
Qed.

(** In a human-vs-human session the board always has its 9 cells, each
    [null], ['X'] or ['O']; X is level with O or one mark ahead; and while a
    round runs it is X's turn exactly when the marks are level, O's when X is
    one ahead. *)
Theorem by_hand_turn_order difficulty match_id trace w :
  run trace (match_started human_vs_human difficulty match_id) = Some w ->
  length (board (state w)) = 9
  /\ (forall i, i < 9 ->
        get (board (state w)) i = Null \/ get (board (state w)) i = Str X
        \/ get (board (state w)) i = Str O)
  /\ (count_mark X (board (state w)) = count_mark O (board (state w))
      \/ count_mark X (board (state w))
         = S (count_mark O (board (state w))))
  /\ (gameActive (state w) = true ->
      (currentPlayer (state w) = X <->
       count_mark X (board (state w)) = count_mark O (board (state w)))).
Proof.
  intros H.
  destruct (run_by_hand trace _ w (match_started_by_hand _ _) H)
    as (_ & _ & _ & (L & U & C & T) & _).
  split; [exact L|]. split; [|split; [exact C|]].
  - intros i Hi.
    assert (I : In (get (board (state w)) i) (board (state w)))
      by (apply nth_In; lia).
    destruct (get (board (state w)) i) as [| |[|]]; auto. contradiction.
  - intros Ha. destruct (T Ha) as [[E1 E2]|[E1 E2]]; rewrite E1.
    + tauto.
    + split; [discriminate|]. intros E. rewrite E in E2. lia.
Qed.

Lemma by_hand_turn_order_witness :
  length (board (state human_outcome)) = 9
  /\ (forall i, i < 9 ->
        get (board (state human_outcome)) i = Null
        \/ get (board (state human_outcome)) i = Str X
        \/ get (board (state human_outcome)) i = Str O)
  /\ (count_mark X (board (state human_outcome))
      = count_mark O (board (state human_outcome))
      \/ count_mark X (board (state human_outcome))
         = S (count_mark O (board (state human_outcome))))
  /\ (gameActive (state human_outcome) = true ->
      (currentPlayer (state human_outcome) = X <->
       count_mark X (board (state human_outcome))
       = count_mark O (board (state human_outcome)))).
Proof.
  apply (by_hand_turn_order None 1 human_trace human_outcome).
  vm_compute. reflexivity.
Defined.

(** In a human-vs-human session every body [saveRound] posts passes the
    [CHECK] constraints of table [rounds]: the round number is between 1 and
    3, the winner is [null], ['X'] or ['O'], and the board state has 9
    elements. *)
Theorem by_hand_round_body difficulty match_id trace w result k :
  run trace (match_started human_vs_human difficulty match_id) = Some w ->
  In (AwaitSaveRound result k) (pending w) ->
  rounds_checks (saveRound_body result (state w)).
Proof.
  intros H HIn.
  destruct (run_by_hand trace _ w (match_started_by_hand _ _) H)
    as ((_ & P) & _ & _ & (L & _) & N).
  apply phase_best_of_3 in P. destruct P as (R & _).
  unfold rounds_checks, saveRound_body. simpl.
  split; [exact R|]. split; [|exact L].
  destruct result as [v|]; [|now left].
  destruct (N v k HIn) as [[|] ->]; auto.
Qed.

Lemma by_hand_round_body_witness :
  rounds_checks
    (saveRound_body (Win (Str X))
       (mkState (Some 1) (Some human_vs_human) None (Some 1) 1%Z 1%Z 0%Z
                [Str X; Str X; Str X; Str O; Str O; Null; Null; Null; Null]
                X false false)).
Proof.
  apply (by_hand_round_body None 1
           [Click 0; Click 3; Click 1; Click 4; Click 2]
           (mkWorld
              (mkState (Some 1) (Some human_vs_human) None (Some 1) 1%Z 1%Z
                       0%Z
                       [Str X; Str X; Str X; Str O; Str O; Null; Null; Null;
                        Null] X false false)
              false false [AwaitSaveRound (Win (Str X)) Stop])
           (Win (Str X)) Stop).
  - vm_compute. reflexivity.
  - simpl. auto.
Defined.

(** *** Rounds won against rounds played *)









(** *** AI-vs-AI matches nobody clicks in *)










End PlayFacts.

(* ================================================================== *)
(** ** Properties of the chart figures *)
(* ================================================================== *)

Module ChartsFacts.
Import Text Charts.

(** *** The doughnut of results *)




(** *** Performance by difficulty *)

Section WithLowerCase.
Variable toLowerCase : jsstring -> jsstring.

(** The counters an entry adds under key [k]. *)
Lemma counts_tallyMatch p m k :
  counts (tallyMatch toLowerCase p m) k
  = if countedUnder toLowerCase k m
    then bump toLowerCase (counts p k) m
    else counts p k.
Proof.
  unfold tallyMatch, countedUnder.
  destruct (keyOf toLowerCase m) as [[| |]|], k; reflexivity.
Qed.

Lemma counts_fold history :
  forall p k,
    let c := counts (fold_left (tallyMatch toLowerCase) history p) k in
    wins c
    = wins (counts p k)
      + length (filter (isWin toLowerCase) (under toLowerCase k history))
    /\ losses c
       = losses (counts p k)
         + length (filter (fun m => negb (isWin toLowerCase m)
                                    && isLoss toLowerCase m)
                          (under toLowerCase k history))
    /\ draws c
       = draws (counts p k)
         + length (filter (fun m => negb (isWin toLowerCase m)
                                    && negb (isLoss toLowerCase m))
                          (under toLowerCase k history)).
Proof.
  induction history as [|m history IH]; intros p k; simpl.
  - repeat split; lia.
  - destruct (IH (tallyMatch toLowerCase p m) k) as (W & L & D).
    rewrite W, L, D, counts_tallyMatch. clear IH W L D.
    unfold under. simpl.
    destruct (countedUnder toLowerCase k m); simpl; [|repeat split; lia].
    unfold bump.
    destruct (isWin toLowerCase m), (isLoss toLowerCase m);
      simpl; repeat split; lia.
Qed.

Lemma countedUnder_once m :
  Nat.b2n (countedUnder toLowerCase KEasy m)
  + Nat.b2n (countedUnder toLowerCase KMedium m)
  + Nat.b2n (countedUnder toLowerCase KHard m) <= 1.
Proof.
  unfold countedUnder.
  destruct (keyOf toLowerCase m) as [[| |]|]; simpl; lia.
Qed.

Lemma under_total history :
  length (under toLowerCase KEasy history)
  + length (under toLowerCase KMedium history)
  + length (under toLowerCase KHard history) <= length history.
Proof.
  unfold under. induction history as [|m history IH]; simpl; [lia|].
  pose proof (countedUnder_once m) as O.
  destruct (countedUnder toLowerCase KEasy m),
           (countedUnder toLowerCase KMedium m),
           (countedUnder toLowerCase KHard m); simpl in *; lia.
Qed.

(** [calculatePerformanceByDifficulty] counts every entry once, under the
    key its lower-cased difficulty names ([easy] when it has none), and not
    at all when that is no key of [performance]: for each of the three keys,
    [wins] is the number of its entries whose lower-cased result contains
    [win] or [won], [losses] the number of the others that contain [loss] or
    [lost], [draws] the rest, and the three add up to the number of entries
    under the key. *)
Theorem performance_counts_partition (history : list HistoryEntry) (k : Key) :
  let c := counts (calculatePerformanceByDifficulty toLowerCase history) k in
  wins c = length (filter (isWin toLowerCase) (under toLowerCase k history))
  /\ losses c
     = length (filter (fun m => negb (isWin toLowerCase m)
                                && isLoss toLowerCase m)
                      (under toLowerCase k history))
  /\ draws c
     = length (filter (fun m => negb (isWin toLowerCase m)
                                && negb (isLoss toLowerCase m))
                      (under toLowerCase k history))
  /\ wins c + losses c + draws c = length (under toLowerCase k history)
  /\ length (under toLowerCase KEasy history)
     + length (under toLowerCase KMedium history)
     + length (under toLowerCase KHard history) <= length history.
Proof.
  unfold calculatePerformanceByDifficulty.
  destruct (counts_fold history
              (mkPerformance (mkCounts 0 0 0) (mkCounts 0 0 0)
                             (mkCounts 0 0 0)) k) as (W & L & D).
  assert (Z0 : counts (mkPerformance (mkCounts 0 0 0) (mkCounts 0 0 0)
                                     (mkCounts 0 0 0)) k
               = mkCounts 0 0 0) by (destruct k; reflexivity).
  rewrite Z0 in W, L, D. simpl in W, L, D.
  split; [exact W|]. split; [exact L|]. split; [exact D|].
  split; [|apply under_total].
  rewrite W, L, D. clear.
  induction (under toLowerCase k history) as [|m l IH]; simpl;
    [reflexivity|].
  destruct (isWin toLowerCase m), (isLoss toLowerCase m); simpl; lia.
Qed.

(** *** The win-rate trend *)

Lemma insertByDate_perm m l : Permutation (insertByDate m l) (m :: l).
Proof.
  induction l as [|x l IH]; simpl; [reflexivity|].
  destruct (date m <=? date x)%Z; [reflexivity|].
  rewrite IH. apply perm_swap.
Qed.

Lemma sortByDate_perm history : Permutation (sortByDate history) history.
Proof.
  induction history as [|m history IH]; simpl; [reflexivity|].
  rewrite insertByDate_perm. now constructor.
Qed.

Lemma insertByDate_sorted m l :
  Sorted (fun a b => (date a <= date b)%Z) l ->
  Sorted (fun a b => (date a <= date b)%Z) (insertByDate m l).
Proof.
  induction l as [|x l IH]; simpl; intros S.
  - repeat constructor.
  - destruct (Z.leb_spec (date m) (date x)).
    + constructor; [exact S|]. now constructor.
    + inversion S as [|? ? S2 H2]; subst. constructor; [now apply IH|].
      destruct l as [|y l]; simpl.
      * constructor. lia.
      * destruct (Z.leb_spec (date m) (date y)); constructor; [lia|].
        now inversion H2.
Qed.

Lemma sortByDate_sorted history :
  Sorted (fun a b => (date a <= date b)%Z) (sortByDate history).
Proof.
  induction history as [|m history IH]; simpl; [constructor|].
  now apply insertByDate_sorted.
Qed.

Lemma countWins_perm l l2 :
  Permutation l l2 -> countWins toLowerCase l = countWins toLowerCase l2.
Proof.
  unfold countWins. induction 1 as [|x l l2 _ IH|x y l|l l2 l3 _ IH1 _ IH2];
    simpl; try congruence.
  - destruct (isWin toLowerCase x); simpl; congruence.
  - destruct (isWin toLowerCase x), (isWin toLowerCase y); reflexivity.
Qed.

Lemma countWins_firstn k l : countWins toLowerCase (firstn k l) <= k.
Proof.
  unfold countWins. revert l. induction k as [|k IH]; intros [|m l]; simpl;
    try lia.
  specialize (IH l). destruct (isWin toLowerCase m); simpl; lia.
Qed.

(** The loop in closed form: a point at every position that is a multiple
    of 5 or the last one, holding the wins counted up to it. *)
Lemma trendLoop_closed l :
  forall i len w,
    trendLoop toLowerCase l i len w i
    = map (fun k => mkPoint k (w + countWins toLowerCase (firstn (k - i) l))
                            k)
          (filter (fun k => (k mod 5 =? 0) || (k - 1 =? len - 1))
                  (seq (S i) (length l))).
Proof.
  induction l as [|m l IH]; intros i len w; [reflexivity|].
  cbn [trendLoop length seq filter]. rewrite IH. rewrite Nat.add_1_r.
  replace (S i - 1) with i by lia.
  assert (T : map (fun k => mkPoint k
                       ((if isWin toLowerCase m then S w else w)
                        + countWins toLowerCase (firstn (k - S i) l)) k)
                  (filter (fun k => (k mod 5 =? 0) || (k - 1 =? len - 1))
                          (seq (S (S i)) (length l)))
              = map (fun k => mkPoint k
                       (w + countWins toLowerCase (firstn (k - i) (m :: l)))
                       k)
                  (filter (fun k => (k mod 5 =? 0) || (k - 1 =? len - 1))
                          (seq (S (S i)) (length l)))).
  { apply map_ext_in. intros k Hk. apply filter_In in Hk as [Hk _].
    apply in_seq in Hk. replace (k - i) with (S (k - S i)) by lia.
    unfold countWins. simpl.
    destruct (isWin toLowerCase m); simpl; f_equal; lia. }
  rewrite T. clear T.
  destruct ((S i mod 5 =? 0) || (i =? len - 1)); [|reflexivity].
  cbn [map]. f_equal. f_equal.
  replace (S i - i) with 1 by lia. unfold countWins. simpl.
  destruct (isWin toLowerCase m); simpl; lia.
Qed.

Lemma checkpoints_last n :
  checkpoints (S n)
  = filter (fun k => (k mod 5 =? 0) || (k =? S n)) (seq 1 n) ++ [S n].
Proof.
  unfold checkpoints. rewrite seq_S, filter_app. simpl.
  rewrite Nat.eqb_refl, orb_true_r. reflexivity.
Qed.

(** [calculateWinRateTrend] sorts a copy of the history by date (a stable
    sort: the result is a rearrangement of the history in ascending date
    order) and puts a point at every fifth match and at the last one: the
    labels are the multiples of 5 up to the number [n] of matches, followed
    by [n] when it is no multiple of 5; the point labelled [k] divides the
    wins among the [k] earliest matches by [k], so no rate exceeds 100; and
    the last point holds all the wins of the history over [n]. *)
Theorem trend_checkpoints (history : list HistoryEntry) :
  history <> [] ->
  Permutation (sortByDate history) history
  /\ Sorted (fun a b => (date a <= date b)%Z) (sortByDate history)
  /\ exists points,
      calculateWinRateTrend toLowerCase history = Series points
      /\ map label points = checkpoints (length history)
      /\ (forall p, In p points ->
            pointTotal p = label p
            /\ pointWins p
               = countWins toLowerCase (firstn (label p) (sortByDate history))
            /\ pointWins p <= pointTotal p)
      /\ last points (mkPoint 0 0 0)
         = mkPoint (length history) (countWins toLowerCase history)
                   (length history).
Proof.
  intros Hne. pose proof (sortByDate_perm history) as P.
  split; [exact P|]. split; [apply sortByDate_sorted|].
  pose proof (Permutation_length P) as L.
  assert (C : calculateWinRateTrend toLowerCase history
              = Series (map (fun k => mkPoint k
                               (countWins toLowerCase
                                  (firstn k (sortByDate history))) k)
                            (checkpoints (length history)))).
  { assert (U : calculateWinRateTrend toLowerCase history
                = Series (trendLoop toLowerCase (sortByDate history) 0
                            (length (sortByDate history)) 0 0))
      by (destruct history; [congruence|reflexivity]).
    rewrite U, trendLoop_closed, L. f_equal. unfold checkpoints.
    assert (F : filter (fun k => (k mod 5 =? 0)
                                 || (k - 1 =? length history - 1))
                       (seq 1 (length history))
                = filter (fun k => (k mod 5 =? 0) || (k =? length history))
                         (seq 1 (length history))).
    { apply filter_ext_in. intros k Hk. apply in_seq in Hk. f_equal.
      destruct (Nat.eqb_spec (k - 1) (length history - 1)),
               (Nat.eqb_spec k (length history)); try reflexivity; lia. }
    rewrite F. apply map_ext. intros k. now rewrite Nat.sub_0_r. }
  eexists. split; [exact C|]. split; [|split].
  - rewrite map_map. simpl. apply map_id.
  - intros p Hp. apply in_map_iff in Hp as (k & <- & _). simpl.
    split; [reflexivity|]. split; [reflexivity|]. apply countWins_firstn.
  - assert (N : exists n, length history = S n)
      by (destruct history; [congruence|simpl; eauto]).
    destruct N as [n N].
    assert (E : exists l, checkpoints (length history)
                          = l ++ [length history])
      by (rewrite N, checkpoints_last; eauto).
    destruct E as [l E]. rewrite E, map_app. simpl. rewrite last_last.
    f_equal. rewrite <- L, firstn_all. now apply countWins_perm.
Qed.

End WithLowerCase.

(** The trend of [sample_history]: seven matches, points at 5 and 7. *)
Lemma trend_checkpoints_witness :
  Permutation (sortByDate sample_history) sample_history
  /\ Sorted (fun a b => (date a <= date b)%Z) (sortByDate sample_history)
  /\ exists points,
      calculateWinRateTrend asciiLower sample_history = Series points
      /\ map label points = checkpoints (length sample_history)
      /\ (forall p, In p points ->
            pointTotal p = label p
            /\ pointWins p
               = countWins asciiLower
                   (firstn (label p) (sortByDate sample_history))
            /\ pointWins p <= pointTotal p)
      /\ last points (mkPoint 0 0 0)
         = mkPoint (length sample_history)
                   (countWins asciiLower sample_history)
                   (length sample_history).
Proof.
  apply (trend_checkpoints asciiLower sample_history). discriminate.
Defined.

(** The figures of [sample_history]: the entry without difficulty counts
    under [easy], upper case is folded, [expert] is no key, and a result
    without any of the four words is a draw. *)
Example sample_history_figures :
  calculatePerformanceByDifficulty asciiLower sample_history
  = mkPerformance (mkCounts 1 1 0) (mkCounts 0 0 1) (mkCounts 1 1 1)
  /\ calculateWinRateTrend asciiLower sample_history
     = Series [mkPoint 5 2 5; mkPoint 7 3 7]
  /\ calculateWinRateTrend asciiLower [] = NoMatchesYet.
Proof. repeat split; vm_compute; reflexivity. Qed.

End ChartsFacts.

(* ================================================================== *)
(** ** Properties of the regular expressions *)
(* ================================================================== *)

Module RegexFacts.
Import Text Regex.

Lemma test_nil (s : jsstring) : test s [] = true <-> s = [].
Proof. destruct s; simpl; split; congruence. Qed.

Lemma test_lit (s : jsstring) (d : N) (rest : list Item) :
  test s (Lit d :: rest) = true
  <-> exists s', s = d :: s' /\ test s' rest = true.
Proof.
  destruct s as [|c s]; simpl.
  - split; [discriminate | intros [s' [E _]]; discriminate].
  - rewrite andb_true_iff, N.eqb_eq. split.
    + intros [-> T]. exists s. split; [reflexivity | exact T].
    + intros [s' [E T]]. injection E as -> ->. split; [reflexivity | exact T].
Qed.

Lemma test_more_split (n : nat) (class : N -> bool) (rest : list Item) :
  forall s : jsstring,
    test s (MoreThan n class :: rest) = true ->
    exists a s', n < length a /\ forallb class a = true
                 /\ s = a ++ s' /\ test s' rest = true.
Proof.
  induction n as [|n IHn].
  - induction s as [|c s IH]; simpl; [discriminate|].
    rewrite andb_true_iff, orb_true_iff. intros [C [T | T]].
    + exists [c], s. simpl. rewrite C. repeat split; [lia | exact T].
    + destruct (IH T) as [a [s' [_ [F [E T']]]]].
      exists (c :: a), s'. simpl. rewrite C, F, E.
      repeat split; [lia | exact T'].
  - intros [|c s]; simpl; [discriminate|].
    rewrite andb_true_iff. intros [C T].
    destruct (IHn s T) as [a [s' [L [F [E T']]]]].
    exists (c :: a), s'. simpl. rewrite C, F, E.
    repeat split; [lia | exact T'].
Qed.

Lemma test_more_join (class : N -> bool) (rest : list Item)
  (s' : jsstring) (T : test s' rest = true) :
  forall (a : jsstring) (n : nat),
    n < length a -> forallb class a = true ->
    test (a ++ s') (MoreThan n class :: rest) = true.
Proof.
  induction a as [|c a IH]; simpl; [lia|]. intros n L F.
  apply andb_true_iff in F. destruct F as [C F]. rewrite C.
  destruct n as [|n]; simpl.
  - destruct a as [|c' a]; [simpl; rewrite T; reflexivity|].
    rewrite (IH 0) by (simpl; lia || exact F). apply orb_true_r.
  - apply IH; [lia | exact F].
Qed.

Lemma test_more (s : jsstring) (n : nat) (class : N -> bool)
  (rest : list Item) :
  test s (MoreThan n class :: rest) = true
  <-> exists a s', n < length a /\ forallb class a = true
                   /\ s = a ++ s' /\ test s' rest = true.
Proof.
  split; [apply test_more_split|].
  intros [a [s' [L [F [-> T]]]]]. apply test_more_join; assumption.
Qed.

(** The strings an expression of the shape [x+@y+\.z+] matches, for any
    classes and least numbers of repetitions. *)
Lemma test_address (s : jsstring) (n1 n2 n3 : nat) (c1 c2 c3 : N -> bool) :
  test s [MoreThan n1 c1; Lit 64; MoreThan n2 c2; Lit 46; MoreThan n3 c3]
  = true
  <-> exists name host tail,
        s = name ++ [64%N] ++ host ++ [46%N] ++ tail
        /\ (n1 < length name /\ forallb c1 name = true)
        /\ (n2 < length host /\ forallb c2 host = true)
        /\ (n3 < length tail /\ forallb c3 tail = true).
Proof.
  rewrite test_more. split.
  - intros [name [s1 [L1 [F1 [E1 T1]]]]].
    apply test_lit in T1. destruct T1 as [s2 [E2 T2]].
    apply test_more in T2. destruct T2 as [host [s3 [L2 [F2 [E3 T3]]]]].
    apply test_lit in T3. destruct T3 as [s4 [E4 T4]].
    apply test_more in T4. destruct T4 as [tail [s5 [L3 [F3 [E5 T5]]]]].
    apply test_nil in T5. subst. rewrite app_nil_r.
    exists name, host, tail. repeat split; assumption.
  - intros [name [host [tail [E [[L1 F1] [[L2 F2] [L3 F3]]]]]]].
    exists name, ([64%N] ++ host ++ [46%N] ++ tail).
    repeat split; try assumption.
    apply (proj2 (test_lit _ _ _)).
    exists (host ++ [46%N] ++ tail). split; [reflexivity|].
    apply (proj2 (test_more _ _ _ _)). exists host, ([46%N] ++ tail).
    repeat split; try assumption.
    apply (proj2 (test_lit _ _ _)).
    exists tail. split; [reflexivity|].
    apply (proj2 (test_more _ _ _ _)). exists tail, []. rewrite app_nil_r.
    repeat split; try assumption.
Qed.

Lemma forallb_weaken (c d : N -> bool) (s : jsstring) :
  (forall x, c x = true -> d x = true) ->
  forallb c s = true -> forallb d s = true.
Proof.
  intros W. rewrite !forallb_forall. intros F x I. apply W, F, I.
Qed.

End RegexFacts.

(* ================================================================== *)
(** ** Properties of the form validation *)
(* ================================================================== *)

Module AuthFacts.
Import Text Regex Auth RegexFacts.

Lemma trimStart_split (s : jsstring) :
  exists p, s = p ++ trimStart s /\ forallb isSpace p = true.
Proof.
  induction s as [|c s [p [E F]]]; simpl.
  - exists []. split; reflexivity.
  - destruct (isSpace c) eqn:W.
    + exists (c :: p). simpl. rewrite W, F. split; [congruence | reflexivity].
    + exists []. split; reflexivity.
Qed.

Lemma trimStart_head (s : jsstring) (c : N) (rest : jsstring) :
  trimStart s = c :: rest -> isSpace c = false.
Proof.
  induction s as [|d s IH]; simpl; [discriminate|].
  destruct (isSpace d) eqn:W; [exact IH | congruence].
Qed.

Lemma trimStart_last (s : jsstring) (c : N) (front : jsstring) :
  trimStart s = front ++ [c] -> exists front', s = front' ++ [c].
Proof.
  intros E. destruct (trimStart_split s) as [p [S _]].
  exists (p ++ front). rewrite S at 1. rewrite E, app_assoc. reflexivity.
Qed.

Lemma trimStart_blank (s : jsstring) :
  forallb isSpace s = true -> trimStart s = [].
Proof.
  induction s as [|c s IH]; [reflexivity|]. simpl.
  rewrite andb_true_iff. intros [-> F]. exact (IH F).
Qed.

(** The result of [trim] neither starts nor ends with white space. *)
Lemma trim_head (s : jsstring) (c : N) (rest : jsstring) :
  trim s = c :: rest -> isSpace c = false.
Proof.
  unfold trim. intros E.
  apply (f_equal (@rev N)) in E. rewrite rev_involutive in E. simpl in E.
  apply trimStart_last in E. destruct E as [front E].
  apply (f_equal (@rev N)) in E.
  rewrite rev_involutive, rev_app_distr in E. simpl in E.
  exact (trimStart_head _ _ _ E).
Qed.

Lemma trim_last (s : jsstring) (c : N) (front : jsstring) :
  trim s = front ++ [c] -> isSpace c = false.
Proof.
  unfold trim. intros E.
  apply (f_equal (@rev N)) in E.
  rewrite rev_involutive, rev_app_distr in E. simpl in E.
  exact (trimStart_head _ _ _ E).
Qed.

(** [trim] strips nothing but white space. *)
Lemma trim_split (s : jsstring) :
  exists before after,
    s = before ++ trim s ++ after
    /\ forallb isSpace before = true /\ forallb isSpace after = true.
Proof.
  destruct (trimStart_split s) as [p [E1 F1]].
  destruct (trimStart_split (rev (trimStart s))) as [q [E2 F2]].
  exists p, (rev q). unfold trim. repeat split.
  - rewrite <- rev_app_distr, <- E2, rev_involutive. exact E1.
  - exact F1.
  - rewrite forallb_forall in *. intros c I. apply F2, in_rev, I.
Qed.

Lemma occurrences_app (c : N) (s t : jsstring) :
  occurrences c (s ++ t) = occurrences c s + occurrences c t.
Proof. unfold occurrences. rewrite filter_app, length_app. reflexivity. Qed.

Lemma occurrences_class (class : N -> bool) (c : N) (s : jsstring) :
  class c = false -> forallb class s = true -> occurrences c s = 0.
Proof.
  intros C. unfold occurrences. induction s as [|d s IH]; [reflexivity|].
  simpl. rewrite andb_true_iff. intros [D F].
  destruct (N.eqb_spec c d) as [<-|_]; [congruence | exact (IH F)].
Qed.

Lemma notSpaceOrAt_space (c : N) :
  notSpaceOrAt c = true -> negb (isSpace c) = true.
Proof. unfold notSpaceOrAt. rewrite andb_true_iff. tauto. Qed.

(** An accepted address has exactly one at sign and no white space. *)
Lemma emailRegex_one_at (s : jsstring) :
  test s emailRegex = true ->
  occurrences 64 s = 1 /\ forallb (fun c => negb (isSpace c)) s = true.
Proof.
  intros T. apply test_address in T.
  destruct T as [name [host [tail [-> [[_ F1] [[_ F2] [_ F3]]]]]]].
  assert (A : notSpaceOrAt 64 = false) by reflexivity.
  split.
  - rewrite !occurrences_app,
      (occurrences_class _ _ _ A F1), (occurrences_class _ _ _ A F2),
      (occurrences_class _ _ _ A F3). reflexivity.
  - rewrite !forallb_app,
      (forallb_weaken _ _ _ notSpaceOrAt_space F1),
      (forallb_weaken _ _ _ notSpaceOrAt_space F2),
      (forallb_weaken _ _ _ notSpaceOrAt_space F3). reflexivity.
Qed.

(** When [handleRegister] sends, and what. *)
Lemma handleRegister_sends (u e p : jsstring) (fields : list jsstring) :
  handleRegister u e p = Send fields
  <-> fields = [trim u; trim e; p]
      /\ 3 <= jslength (trim u) /\ 6 <= jslength p
      /\ test (trim e) emailRegex = true.
Proof.
  unfold handleRegister.
  destruct (falsy (trim u)) eqn:Fu; simpl.
  { destruct (trim u); [|discriminate]. simpl.
    split; [discriminate | intros [_ [L _]]; lia]. }
  destruct (falsy (trim e)) eqn:Fe; simpl.
  { destruct (trim e); [|discriminate].
    split; [discriminate | intros [_ [_ [_ T]]]; discriminate]. }
  destruct (falsy p) eqn:Fp; simpl.
  { destruct p; [|discriminate]. simpl.
    split; [discriminate | intros [_ [_ [L _]]]; lia]. }
  destruct (Nat.ltb_spec (jslength (trim u)) 3) as [Lu|Lu].
  { split; [discriminate | intros [_ [L _]]; lia]. }
  destruct (Nat.ltb_spec (jslength p) 6) as [Lp|Lp].
  { split; [discriminate | intros [_ [_ [L _]]]; lia]. }
  destruct (test (trim e) emailRegex) eqn:T; simpl.
  - split; [intros [= <-]; auto | intros [-> _]; reflexivity].
  - split; [discriminate | intros [_ [_ [_ T']]]; discriminate].
Qed.

(** When [handleRequestReset] sends, and what. *)
Lemma handleRequestReset_sends (e : jsstring) (fields : list jsstring) :
  handleRequestReset e = Send fields
  <-> fields = [trim e] /\ test (trim e) emailRegex = true.
Proof.
  unfold handleRequestReset.
  destruct (falsy (trim e)) eqn:Fe.
  { destruct (trim e); [|discriminate].
    split; [discriminate | intros [_ T]; discriminate]. }
  destruct (test (trim e) emailRegex) eqn:T; simpl.
  - split; [intros [= <-]; auto | intros [-> _]; reflexivity].
  - split; [discriminate | intros [_ T']; discriminate].
Qed.

(** The addresses [emailRegex] accepts: some characters, an at sign, some
    characters, a dot, some characters, where no character is white space
    or an at sign, and each of the three runs has at least one. *)
Theorem emailRegex_accepts (s : jsstring) :
  test s emailRegex = true
  <-> exists name host tail,
        s = name ++ [64%N] ++ host ++ [46%N] ++ tail
        /\ name <> [] /\ host <> [] /\ tail <> []
        /\ forallb notSpaceOrAt (name ++ host ++ tail) = true.
Proof.
  unfold emailRegex. rewrite test_address. split.
  - intros [name [host [tail [E [[L1 F1] [[L2 F2] [L3 F3]]]]]]].
    exists name, host, tail. rewrite !forallb_app, F1, F2, F3.
    repeat split; try assumption.
    + intros ->. simpl in L1. lia.
    + intros ->. simpl in L2. lia.
    + intros ->. simpl in L3. lia.
  - intros [name [host [tail [E [N1 [N2 [N3 F]]]]]]].
    rewrite !forallb_app, !andb_true_iff in F. destruct F as [F1 [F2 F3]].
    exists name, host, tail. repeat split; try assumption.
    + destruct name; [congruence | simpl; lia].
    + destruct host; [congruence | simpl; lia].
    + destruct tail; [congruence | simpl; lia].
Qed.

(** No sign-up request carries a user name that starts or ends with white
    space or has fewer than 3 code units, an e-mail with white space
    anywhere or other than one at sign, or a password of fewer than 6 code
    units; the password is sent as typed, white space included. *)
Theorem handleRegister_request_fields
  (u e p username email password : jsstring) :
  handleRegister u e p = Send [username; email; password] ->
  ((forall c rest, username = c :: rest -> isSpace c = false)
   /\ (forall front c, username = front ++ [c] -> isSpace c = false)
   /\ 3 <= jslength username)
  /\ (occurrences 64 email = 1
      /\ forallb (fun c => negb (isSpace c)) email = true)
  /\ (password = p /\ 6 <= jslength password).
Proof.
  intros H. apply handleRegister_sends in H.
  destruct H as [E [Lu [Lp T]]]. injection E as -> -> ->.
  repeat split; try assumption.
  - intros c rest. apply trim_head.
  - intros front c. apply trim_last.
  - apply (emailRegex_one_at _ T).
  - apply (emailRegex_one_at _ T).
Qed.

Lemma handleRegister_request_fields_witness :
  ((forall c rest, lit "bob" = c :: rest -> isSpace c = false)
   /\ (forall front c, lit "bob" = front ++ [c] -> isSpace c = false)
   /\ 3 <= jslength (lit "bob"))
  /\ (occurrences 64 (lit "bob@example.org") = 1
      /\ forallb (fun c => negb (isSpace c)) (lit "bob@example.org") = true)
  /\ (lit " secret " = lit " secret " /\ 6 <= jslength (lit " secret ")).
Proof.
  apply (handleRegister_request_fields
           (lit "  bob ") (lit " bob@example.org ") (lit " secret ")).
  reflexivity.
Defined.

(** Input that is empty or all white space never reaches the server from
    the sign-in form, whatever the password. *)
Theorem handleLogin_blank (u p : jsstring) :
  forallb isSpace u = true ->
  handleLogin u p = ShowError "Please enter username/email and password.".
Proof.
  intros F. unfold handleLogin, trim.
  rewrite (trimStart_blank _ F). reflexivity.
Qed.

Lemma handleLogin_blank_witness :
  handleLogin (lit "   ") (lit "secret")
  = ShowError "Please enter username/email and password.".
Proof. apply handleLogin_blank. reflexivity. Defined.

(** The reset form sends only the trimmed input, and only when it has
    exactly one at sign and no white space. *)
Theorem handleRequestReset_request_field (e email : jsstring) :
  handleRequestReset e = Send [email] ->
  email = trim e
  /\ occurrences 64 email = 1
  /\ forallb (fun c => negb (isSpace c)) email = true.
Proof.
  intros H. apply handleRequestReset_sends in H.
  destruct H as [E T]. injection E as ->.
  split; [reflexivity | exact (emailRegex_one_at _ T)].
Qed.

Lemma handleRequestReset_request_field_witness :
  lit "bob@example.org" = trim (lit " bob@example.org ")
  /\ occurrences 64 (lit "bob@example.org") = 1
  /\ forallb (fun c => negb (isSpace c)) (lit "bob@example.org") = true.
Proof.
  apply (handleRequestReset_request_field (lit " bob@example.org ")).
  reflexivity.
Defined.

(** The two places that take a new password agree: with a valid user name
    and e-mail, sign-up sends a password exactly when the reset prompt
    sends it. *)
Theorem password_accepted_alike (u e p token : jsstring) :
  3 <= jslength (trim u) -> test (trim e) emailRegex = true ->
  (handleRegister u e p = Send [trim u; trim e; p]
   <-> showResetPasswordForm token (Some p) = Some [token; p]).
Proof.
  intros Lu T. rewrite handleRegister_sends. unfold showResetPasswordForm.
  destruct (Nat.leb_spec 6 (jslength p)) as [L|L].
  - destruct p; [simpl in L; lia|]. simpl. split; auto.
  - rewrite andb_false_r. split; [intros [_ [_ [L' _]]]; lia | discriminate].
Qed.

Lemma password_accepted_alike_witness :
  handleRegister (lit "bob") (lit "bob@example.org") (lit "123456")
  = Send [trim (lit "bob"); trim (lit "bob@example.org"); lit "123456"]
  <-> showResetPasswordForm (lit "token") (Some (lit "123456"))
      = Some [lit "token"; lit "123456"].
Proof.
  apply (password_accepted_alike (lit "bob") (lit "bob@example.org")).
  - vm_compute. lia.
  - reflexivity.
Defined.

End AuthFacts.

(* ================================================================== *)
(** ** Properties of the table [users] *)
(* ================================================================== *)

Module UsersFacts.
Import Text Regex Auth Users RegexFacts.

Lemma letter_range (c : N) :
  letter c = true -> (65 <= c <= 122)%N.
Proof.
  unfold letter.
  rewrite orb_true_iff, !andb_true_iff, !N.leb_le. lia.
Qed.

Lemma localClass_range (c : N) :
  localClass c = true -> (37 <= c <= 122)%N /\ c <> 64%N.
Proof.
  unfold localClass, letter, digit.
  rewrite !orb_true_iff, !andb_true_iff, !N.leb_le, !N.eqb_eq. lia.
Qed.

Lemma hostClass_local (c : N) : hostClass c = true -> localClass c = true.
Proof.
  unfold hostClass, localClass. rewrite !orb_true_iff. tauto.
Qed.

Lemma letter_local (c : N) : letter c = true -> localClass c = true.
Proof. unfold localClass. intros ->. reflexivity. Qed.

Lemma range_notSpaceOrAt (c : N) :
  (37 <= c <= 122)%N /\ c <> 64%N -> notSpaceOrAt c = true.
Proof.
  intros [R A]. unfold notSpaceOrAt, isSpace.
  rewrite andb_true_iff, !negb_true_iff. split.
  - repeat (apply orb_false_iff; split);
      try (apply N.eqb_neq; lia);
      apply andb_false_iff;
      first [left; apply N.leb_gt; lia | right; apply N.leb_gt; lia].
  - apply N.eqb_neq. exact A.
Qed.

Lemma localClass_notSpaceOrAt (c : N) :
  localClass c = true -> notSpaceOrAt c = true.
Proof. intros L. apply range_notSpaceOrAt, localClass_range, L. Qed.

Lemma localClass_ascii (s : jsstring) :
  forallb localClass s = true -> Forall (fun c => (c < 128)%N) s.
Proof.
  rewrite forallb_forall, Forall_forall. intros F c I.
  apply F, localClass_range in I. lia.
Qed.

(** The constraint of the schema is the stricter test of an e-mail: what it
    accepts is ASCII, the same sequence as characters and as code units,
    and is accepted by the forms; the forms also accept addresses it
    refuses, such as [a@b.c]. *)
Theorem email_format_stricter :
  (forall s : jsstring,
      test s email_format = true ->
      test s emailRegex = true /\ Forall (fun c => (c < 128)%N) s)
  /\ (exists s : jsstring,
         test s emailRegex = true /\ test s email_format = false).
Proof.
  split.
  - intros s T. unfold email_format in T. apply test_address in T.
    destruct T as [name [host [tail [-> [[L1 F1] [[L2 F2] [L3 F3]]]]]]].
    apply (forallb_weaken _ _ _ hostClass_local) in F2.
    apply (forallb_weaken _ _ _ letter_local) in F3.
    split.
    + unfold emailRegex. apply test_address. exists name, host, tail.
      repeat split; try lia;
        apply (forallb_weaken _ _ _ localClass_notSpaceOrAt); assumption.
    + repeat (apply Forall_app; split);
        try (apply localClass_ascii; assumption);
        repeat constructor.
  - exists (lit "a@b.c"). split; reflexivity.
Qed.

(** *** Cleaning of the reset tokens *)

Lemma expired_spec (now : Z) (r : row) :
  expired now r = true
  <-> exists token expires,
        reset_token r = Some token /\ reset_token_expires r = Some expires
        /\ (expires < now)%Z.
Proof.
  unfold expired, sql_lt, is_not_null.
  destruct (reset_token r) as [token|], (reset_token_expires r) as [x|];
    simpl.
  - destruct (Z.ltb_spec x now) as [L|L]; simpl.
    + split; [intros _; exists token, x; auto | reflexivity].
    + split; [discriminate | intros [? [? [_ [[= <-] L']]]]; lia].
  - split; [discriminate | intros [? [? [_ [E _]]]]; discriminate].
  - split; [discriminate | intros [? [? [E _]]]; discriminate].
  - split; [discriminate | intros [? [? [E _]]]; discriminate].
Qed.

Lemma expired_no_token (now : Z) (r : row) :
  reset_token r = None -> expired now r = false.
Proof. unfold expired. intros ->. destruct (sql_lt _ _) as [[|]|]; auto. Qed.

Lemma expired_later (now later : Z) (r : row) :
  (now <= later)%Z -> expired now r = true -> expired later r = true.
Proof.
  intros L. rewrite !expired_spec.
  intros [token [x [T [X Lx]]]]. exists token, x. repeat split; auto. lia.
Qed.

Lemma clean_row_expired (now at_ : Z) (r : row) :
  expired now r = true -> expired at_ (clean_row now r) = false.
Proof.
  intros E. unfold clean_row. rewrite E. apply expired_no_token. reflexivity.
Qed.

Lemma clean_row_live (now : Z) (r : row) :
  expired now r = false -> clean_row now r = r.
Proof. intros E. unfold clean_row. rewrite E. reflexivity. Qed.

Lemma clean_row_holds (now : Z) (r : row) :
  holds_token (clean_row now r) = holds_token r && negb (expired now r).
Proof.
  unfold clean_row. destruct (expired now r) eqn:E; simpl.
  - rewrite andb_false_r. reflexivity.
  - rewrite andb_true_r. reflexivity.
Qed.

Lemma expired_holds (now : Z) (r : row) :
  expired now r = true -> holds_token r = true.
Proof.
  rewrite expired_spec. unfold holds_token.
  intros [token [_ [-> _]]]. reflexivity.
Qed.

(** After [clean_expired_reset_tokens] the table has the same rows by [id],
    none holds an expired token, and the number returned is the number of
    tokens that are gone. *)
Theorem clean_expired_reset_tokens_effect (now : Z) (users : list row) :
  map id (fst (clean_expired_reset_tokens now users)) = map id users
  /\ Forall (fun r => expired now r = false)
            (fst (clean_expired_reset_tokens now users))
  /\ length (filter holds_token users)
     = snd (clean_expired_reset_tokens now users)
       + length (filter holds_token
                   (fst (clean_expired_reset_tokens now users))).
Proof.
  unfold clean_expired_reset_tokens, fst, snd.
  induction users as [|r users [I [F C]]]; simpl.
  - repeat split. constructor.
  - rewrite clean_row_holds. destruct (expired now r) eqn:E.
    + rewrite (expired_holds _ _ E). simpl. repeat split.
      * rewrite I. unfold clean_row. rewrite E. reflexivity.
      * constructor; [apply clean_row_expired, E | exact F].
      * rewrite C. reflexivity.
    + rewrite andb_true_r, (clean_row_live _ _ E). repeat split.
      * rewrite I. reflexivity.
      * constructor; assumption.
      * destruct (holds_token r); simpl; lia.
Qed.

(** A row holding a token that has not expired, or a token without an
    expiry, is left as it is, [updated_at] included: a token stored without
    an expiry is never cleaned. *)
Theorem clean_expired_reset_tokens_keeps
  (now : Z) (users : list row) (r : row) :
  In r users ->
  (reset_token_expires r = None
   \/ exists expires,
        reset_token_expires r = Some expires /\ (now <= expires)%Z) ->
  In r (fst (clean_expired_reset_tokens now users)).
Proof.
  intros I L. simpl. apply in_map_iff. exists r. split; [|exact I].
  apply clean_row_live.
  destruct (expired now r) eqn:E; [|reflexivity].
  apply expired_spec in E. destruct E as [token [x [_ [X Lx]]]].
  destruct L as [N | [y [Y Ly]]]; [congruence|].
  assert (x = y) by congruence. lia.
Qed.

Lemma clean_expired_reset_tokens_keeps_witness :
  In (mkRow 2 (Some (lit "t2")) None (Some 5%Z))
     (fst (clean_expired_reset_tokens 100 sample_users)).
Proof.
  apply clean_expired_reset_tokens_keeps.
  - simpl. auto.
  - left. reflexivity.
Defined.

Lemma clean_row_twice (now later : Z) (r : row) :
  (now <= later)%Z ->
  columns (clean_row later (clean_row now r)) = columns (clean_row later r)
  /\ expired later r
     = expired now r || expired later (clean_row now r).
Proof.
  intros L. destruct (expired now r) eqn:E.
  - rewrite (expired_later _ _ _ L E).
    rewrite (clean_row_live later (clean_row now r))
      by (apply clean_row_expired, E).
    unfold clean_row. rewrite E, (expired_later _ _ _ L E).
    split; reflexivity.
  - rewrite (clean_row_live _ _ E). split; reflexivity.
Qed.

(** Run at [now] and again at a later instant, the function counts no row
    twice: the two numbers returned add up to the number a single run at
    the later instant returns, and the tables agree in every column but
    [updated_at]. *)
Theorem clean_expired_reset_tokens_periodic
  (now later : Z) (users : list row) :
  (now <= later)%Z ->
  map columns
    (fst (clean_expired_reset_tokens later
            (fst (clean_expired_reset_tokens now users))))
  = map columns (fst (clean_expired_reset_tokens later users))
  /\ snd (clean_expired_reset_tokens now users)
     + snd (clean_expired_reset_tokens later
              (fst (clean_expired_reset_tokens now users)))
     = snd (clean_expired_reset_tokens later users).
Proof.
  intros L. simpl.
  induction users as [|r users [T C]]; simpl; [split; reflexivity|].
  destruct (clean_row_twice now later r L) as [K X].
  rewrite K, T, X. split; [reflexivity|].
  destruct (expired now r) eqn:E; simpl.
  - rewrite (clean_row_expired _ later _ E). simpl. lia.
  - destruct (expired later (clean_row now r)); simpl; lia.
Qed.

Lemma clean_expired_reset_tokens_periodic_witness :
  map columns
    (fst (clean_expired_reset_tokens 200
            (fst (clean_expired_reset_tokens 100 sample_users))))
  = map columns (fst (clean_expired_reset_tokens 200 sample_users))
  /\ snd (clean_expired_reset_tokens 100 sample_users)
     + snd (clean_expired_reset_tokens 200
              (fst (clean_expired_reset_tokens 100 sample_users)))
     = snd (clean_expired_reset_tokens 200 sample_users).
Proof. apply clean_expired_reset_tokens_periodic. lia. Defined.

(** On [sample_users] a run at 100 cleans one token and a later run at 200
    one more; the token without expiry and the expiry without token stay. *)
Example sample_users_cleaned :
  clean_expired_reset_tokens 100 sample_users
  = ([mkRow 1 None None (Some 100%Z);
      mkRow 2 (Some (lit "t2")) None (Some 5%Z);
      mkRow 3 (Some (lit "t3")) (Some 150%Z) (Some 5%Z);
      mkRow 4 None (Some 10%Z) None], 1)
  /\ snd (clean_expired_reset_tokens 200
            (fst (clean_expired_reset_tokens 100 sample_users))) = 1.
Proof. split; reflexivity. Qed.

End UsersFacts.
